(** * A shallow embedding of the RAG core of cloudigest

    The Go package [rag] exists in two copies, [src/prod/pkg/rag/rag.go] and
    the second [package rag] in [src/cmd/scan.go].  The second copy is a
    superset of the first: it adds the [useOpenAI] switch and the Claude
    generation backend.  We embed the second copy; the first one is the same
    code with [useOpenAI = true].

    Data model:
    - Go [float32] is IEEE-754 binary32, modelled by the executable IEEE
      specification [spec_float] of Corelib with precision 24 and maximal
      exponent 128 (round to nearest even, signed zeros, infinities, NaN);
    - a Go [string] of text is modelled as its sequence of runes ([list Z]),
      which is how [strings.Fields] reads it;
    - [map[string][]float32] is a stdpp [gmap];
    - calls to external services (embedding, chat completion) are parameters
      of a Section: arbitrary functions returning a value or an error;
    - methods with a pointer receiver are functions in a state and error
      monad over the [RAG] record; a Go panic is a separate outcome. *)

From Stdlib Require Import ZArith Bool Lia.
From Stdlib Require Import Floats.SpecFloat.
From stdpp Require Import base list gmap strings.

Open Scope Z_scope.

(* ------------------------------------------------------------------ *)
(** ** float32 *)

Module F32.
Definition prec : Z := 24.
Definition emax : Z := 128.
End F32.

Abbreviation float32 := spec_float.

Definition f32add (x y : float32) : float32 := SFadd F32.prec F32.emax x y.
Definition f32mul (x y : float32) : float32 := SFmul F32.prec F32.emax x y.
Definition f32div (x y : float32) : float32 := SFdiv F32.prec F32.emax x y.

(** The zero value of a [float32] variable. *)
Definition f32zero : float32 := S754_zero false.

(** [m * 2^e] rounded to binary32: used to write literals. *)
Definition f32lit (m e : Z) : float32 := binary_normalize F32.prec F32.emax m e false.

(** [float64(x)]: every binary32 value is a binary64 value, so the
    representation is unchanged. *)
Definition float64_of_float32 (x : float32) : spec_float := x.

(** [float32(x)] for a binary64 value: rounding to binary32. *)
Definition float32_of_float64 (x : spec_float) : float32 :=
  match x with
  | S754_finite s m e => binary_round F32.prec F32.emax s m e
  | _ => x
  end.

(* ------------------------------------------------------------------ *)
(** ** Outcomes of Go calls *)

(** [Ok]: normal return; [Err]: a non-nil [error] was returned;
    [Panic]: a run-time panic (for example an index out of range). *)
Inductive outcome (A : Type) : Type :=
| Ok (a : A)
| Err (msg : string)
| Panic (msg : string).
Arguments Ok {A} a.
Arguments Err {A} msg.
Arguments Panic {A} msg.

(* ------------------------------------------------------------------ *)
(** ** cosineSimilarity and sqrt *)

(** [func sqrt(x float32) float32 { return float32(float64(x)) }] *)
Definition sqrt (x : float32) : float32 := float32_of_float64 (float64_of_float32 x).

(** The loop [for i := range a { ... a[i] ... b[i] ... }] with its three
    accumulators; [b[i]] out of range panics. *)
Fixpoint cosine_loop (a b : list float32) (dotProduct normA normB : float32)
  : outcome (float32 * float32 * float32) :=
  match a with
  | [] => Ok (dotProduct, normA, normB)
  | ai :: a' =>
      match b with
      | [] => Panic "runtime error: index out of range"
      | bi :: b' =>
          cosine_loop a' b'
            (f32add dotProduct (f32mul ai bi))
            (f32add normA (f32mul ai ai))
            (f32add normB (f32mul bi bi))
      end
  end.

Definition cosineSimilarity (a b : list float32) : outcome float32 :=
  match cosine_loop a b f32zero f32zero f32zero with
  | Ok (dotProduct, normA, normB) =>
      Ok (f32div dotProduct (f32mul (sqrt normA) (sqrt normB)))
  | Err e => Err e
  | Panic p => Panic p
  end.

(* ------------------------------------------------------------------ *)
(** ** Text: runes, [unicode.IsSpace], [strings.Fields], [strings.Join] *)

Abbreviation rune := Z.
Abbreviation gostring := (list rune).

(** Go's [unicode.IsSpace]: the Latin-1 cases, then the [White_Space]
    table above Latin-1. *)
Definition isSpace (r : rune) : bool :=
  if (0 <=? r) && (r <=? 255) then
    (r =? 9) || (r =? 10) || (r =? 11) || (r =? 12) || (r =? 13)
    || (r =? 32) || (r =? 133) || (r =? 160)
  else
    (r =? 5760) || ((8192 <=? r) && (r <=? 8202))
    || (r =? 8232) || (r =? 8233) || (r =? 8239) || (r =? 8287)
    || (r =? 12288).

(** [strings.Fields]: the maximal runs of non-space runes, in order.
    [cur] holds the current field, reversed. *)
Fixpoint fields_from (cur : gostring) (s : gostring) : list gostring :=
  match s with
  | [] => match cur with [] => [] | _ => [rev cur] end
  | c :: s' =>
      if isSpace c then
        match cur with
        | [] => fields_from [] s'
        | _ => rev cur :: fields_from [] s'
        end
      else fields_from (c :: cur) s'
  end.

Definition Fields (s : gostring) : list gostring := fields_from [] s.

(** [strings.Join(elems, sep)] *)
Fixpoint Join (elems : list gostring) (sep : gostring) : gostring :=
  match elems with
  | [] => []
  | [e] => e
  | e :: elems' => e ++ sep ++ Join elems' sep
  end.

(** A Go string literal made of ASCII characters, as runes. *)
Definition str (s : string) : gostring :=
  map (fun c => Z.of_N (Ascii.N_of_ascii c)) (String.list_ascii_of_string s).

Definition space : gostring := [32].

(** The whitespace-normalised form of a text: its words joined by one space. *)
Definition normalize (s : gostring) : gostring := Join (Fields s) space.

(* ------------------------------------------------------------------ *)
(** ** splitIntoChunks *)

(** One iteration of [for _, word := range words]:
<<
    currentChunk = append(currentChunk, word)
    if len(currentChunk) >= r.chunkSize {
        chunks = append(chunks, strings.Join(currentChunk, " "))
        currentChunk = nil
    }
>> *)
Definition chunk_step (chunkSize : Z) (st : list gostring * list gostring) (word : gostring)
  : list gostring * list gostring :=
  let '(chunks, currentChunk) := st in
  let currentChunk := currentChunk ++ [word] in
  if Z.of_nat (length currentChunk) >=? chunkSize
  then (chunks ++ [Join currentChunk space], [])
  else (chunks, currentChunk).

Definition splitIntoChunks (chunkSize : Z) (text : gostring) : list gostring :=
  let words := Fields text in
  let '(chunks, currentChunk) := fold_left (chunk_step chunkSize) words ([], []) in
  if (0 <? length currentChunk)%nat
  then chunks ++ [Join currentChunk space]
  else chunks.

(* ------------------------------------------------------------------ *)
(** ** The RAG record *)

Record Document := mkDocument {
  Content : gostring;
  Source : gostring;
  Type_ : gostring  (* the Go field [Type] *)
}.

(** An API client is identified by its key; a nil [*Client] is [None]. *)
Abbreviation client := string.

Record RAG := mkRAG {
  openaiClient : option client;
  claudeClient : option client;
  documents : list Document;
  embeddings : gmap gostring (list float32);
  chunkSize : Z;
  maxTokens : Z;
  useOpenAI : bool
}.

Definition set_documents (r : RAG) (ds : list Document) : RAG :=
  mkRAG (openaiClient r) (claudeClient r) ds (embeddings r) (chunkSize r) (maxTokens r) (useOpenAI r).
Definition set_embeddings (r : RAG) (m : gmap gostring (list float32)) : RAG :=
  mkRAG (openaiClient r) (claudeClient r) (documents r) m (chunkSize r) (maxTokens r) (useOpenAI r).
Definition set_chunkSize (r : RAG) (n : Z) : RAG :=
  mkRAG (openaiClient r) (claudeClient r) (documents r) (embeddings r) n (maxTokens r) (useOpenAI r).
Definition set_maxTokens (r : RAG) (n : Z) : RAG :=
  mkRAG (openaiClient r) (claudeClient r) (documents r) (embeddings r) (chunkSize r) n (useOpenAI r).

(** [NewRAG(apiKey)] *)
Definition NewRAG (apiKey : client) : RAG :=
  mkRAG (Some apiKey) None [] ∅ 1000 4000 true.

(** [NewRAGWithClaude(claudeKey)] *)
Definition NewRAGWithClaude (claudeKey : client) : RAG :=
  mkRAG None (Some claudeKey) [] ∅ 1000 4000 false.

(* ------------------------------------------------------------------ *)
(** ** Methods with a pointer receiver: a state and error monad *)

Definition M (A : Type) : Type := RAG -> RAG * outcome A.

Definition ret {A} (a : A) : M A := fun r => (r, Ok a).

Definition bind {A B} (m : M A) (f : A -> M B) : M B := fun r =>
  match m r with
  | (r', Ok a) => f a r'
  | (r', Err e) => (r', Err e)
  | (r', Panic p) => (r', Panic p)
  end.

Notation "x <- m ;; k" := (bind m (fun x => k))
  (at level 100, m at next level, right associativity).
Notation "m ;;; k" := (bind m (fun _ => k))
  (at level 100, right associativity).

Definition get : M RAG := fun r => (r, Ok r).
Definition modify (f : RAG -> RAG) : M unit := fun r => (f r, Ok tt).

(** [return ..., err] *)
Definition throw {A} (e : string) : M A := fun r => (r, Err e).
(** [if err != nil { h(err) }] *)
Definition handle {A} (m : M A) (h : string -> M A) : M A := fun r =>
  match m r with
  | (r', Err e) => h e r'
  | res => res
  end.
(** The result of a call that does not touch the receiver. *)
Definition lift {A} (o : outcome A) : M A := fun r => (r, o).

(** [fmt.Errorf(prefix + "%v", err)] *)
Definition errorf (prefix e : string) : string := String.append prefix e.

Definition nil_deref : string := "runtime error: invalid memory address or nil pointer dereference".

Section Backends.

(** [openaiClient.CreateEmbeddings] for one input, followed by
    [resp.Data[0].Embedding]. *)
Variable CreateEmbeddings : client -> gostring -> outcome (list float32).
(** [openaiClient.CreateChatCompletion] with a system and a user message,
    followed by [resp.Choices[0].Message.Content]. *)
Variable CreateChatCompletion : client -> gostring -> gostring -> Z -> outcome gostring.
(** [claudeClient.CreateMessages] with one user message, followed by
    [resp.GetFirstContentText()]. *)
Variable CreateMessages : client -> gostring -> Z -> outcome gostring.

Definition claude_mode_error : string :=
  "Claude mode requires an OpenAI API key for embeddings - this is not implemented yet".

(** [func (r *RAG) getEmbedding(text string) ([]float32, error)] *)
Definition getEmbedding (text : gostring) : M (list float32) :=
  r <- get ;;
  if useOpenAI r then
    match openaiClient r with
    | Some c => lift (CreateEmbeddings c text)
    | None => lift (Panic nil_deref)
    end
  else throw claude_mode_error.

(** The body of [for _, chunk := range chunks] in [AddDocument]. *)
Fixpoint add_chunks (doc : Document) (chunks : list gostring) : M unit :=
  match chunks with
  | [] => ret tt
  | chunk :: rest =>
      embedding <- handle (getEmbedding chunk)
                     (fun err => throw (errorf "failed to get embedding: " err)) ;;
      modify (fun r => set_documents r
                (documents r ++ [mkDocument chunk (Source doc) (Type_ doc)])) ;;;
      modify (fun r => set_embeddings r (<[chunk := embedding]> (embeddings r))) ;;;
      add_chunks doc rest
  end.

(** [func (r *RAG) AddDocument(doc Document) error] *)
Definition AddDocument (doc : Document) : M unit :=
  r <- get ;;
  add_chunks doc (splitIntoChunks (chunkSize r) (Content doc)).

(** The first loop of [findRelevantDocuments]: one [docScore] per document;
    a missing map key reads as the nil slice. *)
Fixpoint score_docs (embs : gmap gostring (list float32)) (queryEmbedding : list float32)
    (docs : list Document) : outcome (list (Document * float32)) :=
  match docs with
  | [] => Ok []
  | doc :: docs' =>
      let embedding := default [] (embs !! Content doc) in
      match cosineSimilarity queryEmbedding embedding with
      | Ok similarity =>
          match score_docs embs queryEmbedding docs' with
          | Ok scores => Ok ((doc, similarity) :: scores)
          | Err e => Err e
          | Panic p => Panic p
          end
      | Err e => Err e
      | Panic p => Panic p
      end
  end.

(** [for i := 0; i < len(scores) && i < 3; i++ { result = append(result, scores[i].doc) }] *)
Fixpoint top_loop (i : nat) (scores : list (Document * float32)) : list Document :=
  match scores with
  | [] => []
  | s :: scores' => if (i <? 3)%nat then s.1 :: top_loop (S i) scores' else []
  end.

(** [func (r *RAG) findRelevantDocuments(queryEmbedding []float32) []Document].
    The source sorts nothing: "Implementation of sorting omitted for brevity". *)
Definition findRelevantDocuments (queryEmbedding : list float32) : M (list Document) :=
  r <- get ;;
  scores <- lift (score_docs (embeddings r) queryEmbedding (documents r)) ;;
  ret (top_loop 0 scores).

(** [func (r *RAG) buildContext(docs []Document) string] *)
Definition buildContext (docs : list Document) : gostring :=
  str "Based on the following information:" ++ [10; 10] ++
  concat (map (fun doc => str "Source: " ++ Source doc ++ [10] ++ Content doc ++ [10; 10]) docs).

Definition systemPrompt : gostring :=
  str ("You are an infrastructure optimization expert. Use the provided context to answer questions about infrastructure, " ++
       "services, and container deployments. Provide clear, actionable recommendations without implementing them directly.")%string.

(** [func (r *RAG) generateAnswer(ctx, question string) (string, error)] *)
Definition generateAnswer (ctx question : gostring) : M gostring :=
  r <- get ;;
  if useOpenAI r then
    match openaiClient r with
    | Some c => lift (CreateChatCompletion c systemPrompt
                        (ctx ++ [10; 10] ++ str "Question: " ++ question) (maxTokens r))
    | None => lift (Panic nil_deref)
    end
  else
    let promptText := systemPrompt ++ [10; 10] ++ ctx ++ [10; 10] ++ str "Question: " ++ question in
    match claudeClient r with
    | Some c => lift (CreateMessages c promptText (maxTokens r))
    | None => lift (Panic nil_deref)
    end.

(** [func (r *RAG) Query(question string) (string, error)] *)
Definition Query (question : gostring) : M gostring :=
  questionEmbedding <- handle (getEmbedding question)
      (fun err => throw (errorf "failed to get question embedding: " err)) ;;
  relevantDocs <- findRelevantDocuments questionEmbedding ;;
  let context := buildContext relevantDocs in
  generateAnswer context question.

End Backends.

(** [func (r *RAG) SetChunkSize(size int)] *)
Definition SetChunkSize (size : Z) : M unit := modify (fun r => set_chunkSize r size).

(** [func (r *RAG) SetMaxTokens(tokens int)] *)
Definition SetMaxTokens (tokens : Z) : M unit := modify (fun r => set_maxTokens r tokens).

(* ------------------------------------------------------------------ *)
(** ** Concrete inputs *)

Definition chunk_doc (src : Document) (chunk : gostring) : Document :=
  mkDocument chunk (Source src) (Type_ src).

Definition article (content : string) : Document :=
  mkDocument (str content) (str "https://example.com/k8s") (str "article").

(** Five indexed chunks ["a"] .. ["e"] whose one-dimensional embeddings
    [16], [8], [4], [2], [1] score 1/16, 1/8, 1/4, 1/2 and 1 against the
    query embedding [1]. *)
Definition five_chunks_index : RAG :=
  mkRAG (Some "sk-test"%string) None
    (map (chunk_doc (article "a b c d e")) [str "a"; str "b"; str "c"; str "d"; str "e"])
    (<[str "a" := [f32lit 16 0]]> (<[str "b" := [f32lit 8 0]]> (<[str "c" := [f32lit 4 0]]>
      (<[str "d" := [f32lit 2 0]]> (<[str "e" := [f32lit 1 0]]> ∅)))))
    1000 4000 true.

Definition unit_query : list float32 := [f32lit 1 0].

(** An embedding backend that fails on the text ["c"] and returns the
    vector [1] otherwise. *)
Definition embed_fail_on_c (c : client) (text : gostring) : outcome (list float32) :=
  if decide (text = str "c") then Err "quota exceeded" else Ok [f32lit 1 0].

(** An embedding backend that never fails. *)
Definition embed_const (c : client) (text : gostring) : outcome (list float32) :=
  Ok [f32lit 1 0].

Definition no_chat (c : client) (sys user : gostring) (n : Z) : outcome gostring := Err "unused".
Definition no_messages (c : client) (prompt : gostring) (n : Z) : outcome gostring := Err "unused".

(* ------------------------------------------------------------------ *)
(** ** Callers: the [query] command and its knowledge-base loaders
    ([src/unnamed/part_003], package [cmd]) *)

(** An element of the [rag.sources] configuration list. *)
Record DocSource := mkDocSource {
  URL : gostring;
  SourceType : gostring;  (* the field [Type] *)
  Name : gostring
}.

(** The three documents of [loadExampleDocuments]. *)
Definition example_documents : list Document :=
  [ mkDocument
      (str ("Kubernetes is a portable, extensible, open source platform for managing containerized workloads and services. " ++
            "The best practices for deploying Kubernetes include: using a managed Kubernetes service like GKE, EKS, or AKS; " ++
            "implementing proper resource requests and limits; setting up monitoring and alerting; using Helm for package management; " ++
            "and implementing a robust CI/CD pipeline for deployments.")%string)
      (str "Kubernetes Best Practices") (str "documentation");
    mkDocument
      (str ("When optimizing AWS EC2 costs, consider: using Reserved Instances for predictable workloads; " ++
            "implementing auto-scaling groups; choosing the right instance types; regularly reviewing and terminating unused resources; " ++
            "using Spot Instances for fault-tolerant workloads; and leveraging AWS Cost Explorer for detailed analysis.")%string)
      (str "AWS Cost Optimization Guide") (str "article");
    mkDocument
      (str ("Container security best practices include: scanning images for vulnerabilities; using minimal base images; " ++
            "implementing network policies; running containers with least privileges; using immutable infrastructure; " ++
            "and implementing a zero-trust security model.")%string)
      (str "Container Security Guidelines") (str "documentation") ].

(** [if chunkSize := viper.GetInt("rag.chunk_size"); chunkSize > 0 { ragSystem.SetChunkSize(chunkSize) }]
    and the same for [rag.max_tokens]. *)
Definition applyRAGConfig (chunkSizeCfg maxTokensCfg : Z) : M unit :=
  (if 0 <? chunkSizeCfg then SetChunkSize chunkSizeCfg else ret tt) ;;;
  (if 0 <? maxTokensCfg then SetMaxTokens maxTokensCfg else ret tt).

Definition claude_key_placeholder : string := "your-claude-api-key-here".

Section Callers.

Variable CreateEmbeddings : client -> gostring -> outcome (list float32).
Variable CreateChatCompletion : client -> gostring -> gostring -> Z -> outcome gostring.
Variable CreateMessages : client -> gostring -> Z -> outcome gostring.
(** [http.Get(source.URL)] followed by [ioutil.ReadAll(resp.Body)]:
    [None] when either returns an error. *)
Variable fetch : gostring -> option gostring.

(** [for _, doc := range documents { if err := r.AddDocument(doc); err != nil { return err } }] *)
Fixpoint add_all (docs : list Document) : M unit :=
  match docs with
  | [] => ret tt
  | doc :: rest => AddDocument CreateEmbeddings doc ;;; add_all rest
  end.

(** [func loadExampleDocuments(r *rag.RAG) error] *)
Definition loadExampleDocuments : M unit := add_all example_documents.

(** The loop of [loadKnowledgeBase] over configured sources: a failed
    fetch or a failed [AddDocument] is reported and skipped ([continue]). *)
Fixpoint load_sources (sources : list DocSource) : M unit :=
  match sources with
  | [] => ret tt
  | source :: rest =>
      match fetch (URL source) with
      | None => load_sources rest
      | Some content =>
          handle (AddDocument CreateEmbeddings (mkDocument content (Name source) (SourceType source)))
                 (fun _ => ret tt) ;;;
          load_sources rest
      end
  end.

(** [func loadKnowledgeBase(r *rag.RAG) error]; [sources] is the result of
    [viper.UnmarshalKey("rag.sources", &sources)]: an error or the list. *)
Definition loadKnowledgeBase (sources : string + list DocSource) : M unit :=
  match sources with
  | inl err => throw (errorf "failed to read document sources from config: " err)
  | inr [] => loadExampleDocuments
  | inr srcs => load_sources srcs
  end.

(** The [RunE] of the [query] command from the API-key checks on, with
    console output left out; [openAIKey] and [claudeKey] are the
    configured keys. *)
Definition queryCommand (openAIKey claudeKey : client) (chunkSizeCfg maxTokensCfg : Z)
    (sources : string + list DocSource) (question : gostring) : outcome gostring :=
  if String.eqb openAIKey "" then Err "OpenAI API key not found in configuration" else
  let useClaudeIfAvailable :=
    negb (String.eqb claudeKey "") && negb (String.eqb claudeKey claude_key_placeholder) in
  let ragSystem := if useClaudeIfAvailable then NewRAGWithClaude claudeKey else NewRAG openAIKey in
  ((applyRAGConfig chunkSizeCfg maxTokensCfg ;;;
   handle (loadKnowledgeBase sources)
     (fun err => throw (errorf "failed to load knowledge base: " err)) ;;;
   handle (Query CreateEmbeddings CreateChatCompletion CreateMessages question)
     (fun err => throw (errorf "failed to process query: " err))) ragSystem).2.

End Callers.

(** The package [ai] of [src/prod/pkg/rag/rag.go]. *)
Module AI.

Record SearchResult := mkSearchResult {
  Title : gostring;
  URL : gostring;
  Description : gostring;
  Content : gostring
}.

Section Enhance.
(** [s.analyzeContent(content, query)] *)
Variable analyzeContent : gostring -> gostring -> outcome gostring.

(** [func (s *SearchEngine) enhanceResults(results []SearchResult, query string) ([]SearchResult, error)]:
    [results[i].Content = analysis] for each [i] in order; the first error
    is returned with a nil slice. *)
Fixpoint enhanceResults (results : list SearchResult) (query : gostring) : outcome (list SearchResult) :=
  match results with
  | [] => Ok []
  | res :: rest =>
      match analyzeContent (Content res) query with
      | Ok analysis =>
          match enhanceResults rest query with
          | Ok rs => Ok (mkSearchResult (Title res) (URL res) (Description res) analysis :: rs)
          | Err e => Err e
          | Panic p => Panic p
          end
      | Err e => Err e
      | Panic p => Panic p
      end
  end.
End Enhance.

End AI.

(* ------------------------------------------------------------------ *)
(** ** Vocabulary of the statements *)

(** A word as [strings.Fields] produces it. *)
Definition word_ok (w : gostring) : Prop :=
  w <> [] /\ Forall (fun c => isSpace c = false) w.

Definition zero_or_nan (x : float32) : bool :=
  match x with S754_zero _ | S754_nan => true | _ => false end.

(** A vector whose components are all [+0] or [-0]. *)
Definition all_zero (v : list float32) : Prop :=
  Forall (fun x => exists s, x = S754_zero s) v.

(** The index after the chunks [kvs.*1] of [doc], with their embeddings
    [kvs.*2], have been appended in order. *)
Definition commit_chunks (r : RAG) (doc : Document) (kvs : list (gostring * list float32)) : RAG :=
  set_embeddings
    (set_documents r (documents r ++ map (fun kv => chunk_doc doc kv.1) kvs))
    (foldl (fun m kv => <[kv.1 := kv.2]> m) (embeddings r) kvs).

(** Successive [r.AddDocument(doc)] calls on one receiver, each on the
    state the previous one left, whatever it returned. *)
Fixpoint ingest_seq (CreateEmbeddings : client -> gostring -> outcome (list float32))
    (docs : list Document) (r : RAG) : RAG :=
  match docs with
  | [] => r
  | doc :: docs' => ingest_seq CreateEmbeddings docs' (AddDocument CreateEmbeddings doc r).1
  end.

(** Every indexed chunk has an entry in [embeddings]. *)
Definition index_ok (r : RAG) : Prop :=
  Forall (fun d => is_Some (embeddings r !! Content d)) (documents r).

(** A computation that keeps the backend selection of the receiver. *)
Definition keeps_flags {A} (m : M A) : Prop :=
  forall r, useOpenAI (m r).1 = useOpenAI r /\ openaiClient (m r).1 = openaiClient r.

(** A computation that leaves the receiver as it found it. *)
Definition readonly {A} (m : M A) : Prop := forall r, (m r).1 = r.

(* ================================================================== *)
(** * Properties *)

(* ------------------------------------------------------------------ *)
(** ** Fields and Join *)

Lemma fields_from_word cur w s :
  Forall (fun c => isSpace c = false) w ->
  fields_from cur (w ++ s) = fields_from (rev w ++ cur) s.
Proof.
  revert cur. induction w as [|c w IH]; intros cur Hw; simpl; [done|].
  apply Forall_cons in Hw as [Hc Hw]. rewrite Hc, IH by done.
  by rewrite <- app_assoc.
Qed.

Lemma fields_from_space cur s :
  fields_from cur (space ++ s) =
  match cur with [] => fields_from [] s | _ => rev cur :: fields_from [] s end.
Proof. reflexivity. Qed.

Lemma Fields_Join ws :
  Forall word_ok ws -> Fields (Join ws space) = ws.
Proof.
  unfold Fields. induction ws as [|w ws IH]; intros Hws; [done|].
  apply Forall_cons in Hws as [[Hne Hw] Hws].
  destruct ws as [|w' ws'].
  - simpl. rewrite <- (app_nil_r w) at 1. rewrite fields_from_word by done.
    rewrite app_nil_r. simpl. destruct (rev w) eqn:E.
    + apply (f_equal (@rev _)) in E. rewrite rev_involutive in E. done.
    + rewrite <- E, rev_involutive. done.
  - change (Join (w :: w' :: ws') space) with (w ++ space ++ Join (w' :: ws') space).
    rewrite fields_from_word by done. rewrite app_nil_r.
    rewrite fields_from_space, IH by done.
    destruct (rev w) eqn:E.
    + apply (f_equal (@rev _)) in E. rewrite rev_involutive in E. done.
    + rewrite <- E, rev_involutive. done.
Qed.

Lemma fields_from_ok cur s :
  Forall (fun c => isSpace c = false) cur -> Forall word_ok (fields_from cur s).
Proof.
  revert cur. induction s as [|c s IH]; intros cur Hcur; simpl.
  - destruct cur as [|c' cur']; [done|]. constructor; [|done].
    split; [|by apply Forall_rev].
    intros E. apply (f_equal length) in E. rewrite length_rev in E. simpl in E. lia.
  - destruct (isSpace c) eqn:Hc.
    + destruct cur as [|c' cur']; [by apply IH|]. constructor; [|by apply IH].
      split; [|by apply Forall_rev].
      intros E. apply (f_equal length) in E. rewrite length_rev in E. simpl in E. lia.
    + apply IH. by constructor.
Qed.

Lemma Fields_ok s : Forall word_ok (Fields s).
Proof. by apply fields_from_ok. Qed.

Lemma Join_single w : Join [w] space = w.
Proof. reflexivity. Qed.

(* ------------------------------------------------------------------ *)
(** ** The chunking loop *)

Lemma chunk_loop_inv (N : Z) ws chunks cur :
  0 < N -> Z.of_nat (length cur) < N ->
  exists gs,
    (fold_left (chunk_step N) ws (chunks, cur)).1 = chunks ++ map (fun g => Join g space) gs /\
    Forall (fun g => Z.of_nat (length g) = N) gs /\
    concat gs ++ (fold_left (chunk_step N) ws (chunks, cur)).2 = cur ++ ws /\
    Z.of_nat (length (fold_left (chunk_step N) ws (chunks, cur)).2) < N.
Proof.
  intros HN. revert chunks cur.
  induction ws as [|w ws IH]; intros chunks cur Hcur; cbn [fold_left].
  - exists []. simpl. rewrite !app_nil_r. done.
  - destruct (Z.of_nat (length (cur ++ [w])) >=? N) eqn:Hge;
      rewrite Z.geb_leb, length_app in Hge; simpl length in Hge;
      [apply Z.leb_le in Hge|apply Z.leb_gt in Hge].
    + replace (chunk_step N (chunks, cur) w)
        with (chunks ++ [Join (cur ++ [w]) space], @nil gostring)
        by (unfold chunk_step; rewrite length_app, Z.geb_leb; simpl length;
            by apply Z.leb_le in Hge as ->).
      destruct (IH (chunks ++ [Join (cur ++ [w]) space]) []) as (gs & H1 & H2 & H3 & H4);
        [simpl; lia|].
      exists ((cur ++ [w]) :: gs). split; [|split; [|split]].
      * rewrite H1. cbn [map]. by rewrite <- app_assoc.
      * constructor; [|done]. rewrite length_app. simpl. lia.
      * cbn [concat]. rewrite <- app_assoc, H3. by rewrite <- app_assoc.
      * done.
    + replace (chunk_step N (chunks, cur) w) with (chunks, cur ++ [w])
        by (unfold chunk_step; rewrite length_app, Z.geb_leb; simpl length;
            by apply Z.leb_gt in Hge as ->).
      destruct (IH chunks (cur ++ [w])) as (gs & H1 & H2 & H3 & H4);
        [rewrite length_app; simpl; lia|].
      exists gs. split; [done|split; [done|split; [|done]]].
      rewrite H3. by rewrite <- app_assoc.
Qed.

Lemma chunk_loop_nonpos (N : Z) ws chunks :
  N <= 0 -> fold_left (chunk_step N) ws (chunks, []) = (chunks ++ ws, []).
Proof.
  intros HN. revert chunks. induction ws as [|w ws IH]; intros chunks; cbn [fold_left].
  - by rewrite app_nil_r.
  - replace (chunk_step N (chunks, []) w) with (chunks ++ [w], @nil gostring).
    + rewrite IH. by rewrite <- app_assoc.
    + unfold chunk_step. simpl. rewrite Z.geb_leb.
      destruct (N <=? Z.of_nat 1) eqn:E; [done|]. apply Z.leb_gt in E. lia.
Qed.

Lemma ceil_div_groups (N k r : Z) :
  0 < N -> 0 <= k -> 0 <= r < N ->
  (N * k + r + N - 1) / N = k + (if r =? 0 then 0 else 1).
Proof.
  intros HN Hk Hr.
  replace (N * k + r + N - 1) with (k * N + (r + N - 1)) by lia.
  rewrite Z.div_add_l by lia. f_equal.
  destruct (r =? 0) eqn:E.
  - apply Z.eqb_eq in E. apply Z.div_small. lia.
  - apply Z.eqb_neq in E. symmetry. apply Z.div_unique with (r - 1); lia.
Qed.

Lemma chunks_fields groups :
  Forall word_ok (concat groups) ->
  map Fields (map (fun g => Join g space) groups) = groups.
Proof.
  induction groups as [|g groups IH]; intros Hok; [done|].
  cbn [concat] in Hok. apply Forall_app in Hok as [Hg Hgs].
  cbn [map]. rewrite Fields_Join, IH by done. done.
Qed.

Lemma length_concat_groups (N : Z) (gs : list (list gostring)) :
  Forall (fun g => Z.of_nat (length g) = N) gs ->
  Z.of_nat (length (concat gs)) = N * Z.of_nat (length gs).
Proof.
  induction gs as [|g gs IH]; intros H; [simpl; lia|].
  apply Forall_cons in H as [Hg H]. cbn [concat length].
  rewrite length_app. specialize (IH H). lia.
Qed.

(** The chunks are the joins of consecutive word groups: [N] words each,
    then a last group of fewer than [N] words if any word remains. *)
Lemma splitIntoChunks_groups (N : Z) (text : gostring) :
  0 < N ->
  exists gs last,
    splitIntoChunks N text = map (fun g => Join g space) (gs ++ last) /\
    concat (gs ++ last) = Fields text /\
    Forall (fun g => Z.of_nat (length g) = N) gs /\
    Forall (fun g => 0 < Z.of_nat (length g) < N) last /\
    (length last <= 1)%nat.
Proof.
  intros HN. unfold splitIntoChunks.
  destruct (chunk_loop_inv N (Fields text) [] [] HN) as (gs & H1 & H2 & H3 & H4);
    [simpl; lia|].
  destruct (fold_left (chunk_step N) (Fields text) ([], [])) as [chunks cur].
  simpl in H1, H3, H4. subst chunks.
  destruct cur as [|c cur'] eqn:Hcur.
  - exists gs, []. rewrite !app_nil_r in *.
    split; [done|split; [done|split; [done|split; [constructor|simpl; lia]]]].
  - exists gs, [cur]. subst cur. simpl (0 <? _)%nat. cbn match.
    split; [by rewrite map_app|]. split; [|split; [done|split]].
    + rewrite concat_app. simpl. by rewrite app_nil_r.
    + constructor; [|done]. simpl length in *. lia.
    + simpl. lia.
Qed.

(** C5: for a chunk size [N > 0], the chunks of a text are made of whole
    words of the text, in order: their words, concatenated, are exactly the
    words of the text (so joined by single spaces they give its
    whitespace-normalised form); there are ceil(wordCount / N) chunks; no
    chunk has more than [N] words; the empty text gives no chunk. *)
Theorem splitIntoChunks_spec (N : Z) (text : gostring) :
  0 < N ->
  let chunks := splitIntoChunks N text in
  (exists groups, chunks = map (fun g => Join g space) groups /\
                  concat groups = Fields text) /\
  concat (map Fields chunks) = Fields text /\
  Join (concat (map Fields chunks)) space = normalize text /\
  Z.of_nat (length chunks) = (Z.of_nat (length (Fields text)) + N - 1) / N /\
  Forall (fun c => Z.of_nat (length (Fields c)) <= N) chunks /\
  (text = [] -> chunks = []).
Proof.
  intros HN chunks.
  destruct (splitIntoChunks_groups N text HN) as (gs & last & Hc & Hcat & Hgs & Hlast & Hlen).
  assert (Hok : Forall word_ok (concat (gs ++ last))) by (rewrite Hcat; apply Fields_ok).
  assert (Hmap : map Fields chunks = gs ++ last) by (unfold chunks; rewrite Hc; by apply chunks_fields).
  split; [by exists (gs ++ last)|].
  split; [by rewrite Hmap|].
  split; [by unfold normalize; rewrite Hmap, Hcat|].
  split; [|split].
  - assert (Hlc : length chunks = (length gs + length last)%nat)
      by (unfold chunks; rewrite Hc, length_map, length_app; done).
    rewrite <- Hcat, concat_app, length_app, Nat2Z.inj_add, Hlc, Nat2Z.inj_add.
    rewrite (length_concat_groups N gs Hgs).
    destruct last as [|l [|l' last']]; simpl in Hlen; [| |lia].
    + pose proof (ceil_div_groups N (Z.of_nat (length gs)) 0 HN ltac:(lia) ltac:(lia)) as Hd.
      simpl in Hd |- *. rewrite Z.add_0_r in Hd. rewrite Z.add_0_r, Z.add_0_r, Hd. lia.
    + apply Forall_cons in Hlast as [Hl _]. simpl concat. rewrite app_nil_r.
      rewrite (ceil_div_groups N (Z.of_nat (length gs)) (Z.of_nat (length l))) by lia.
      destruct (Z.of_nat (length l) =? 0) eqn:E; [apply Z.eqb_eq in E; lia|]. simpl. lia.
  - apply (Forall_map Fields (fun g => Z.of_nat (length g) <= N)).
    rewrite Hmap. apply Forall_app. split.
    + eapply Forall_impl; [exact Hgs|]. simpl. lia.
    + eapply Forall_impl; [exact Hlast|]. simpl. lia.
  - intros ->. reflexivity.
Qed.

Lemma splitIntoChunks_spec_witness :
  0 < 3 /\
  splitIntoChunks 3 (str "Kubernetes is great. Kubernetes scales well.") =
    [str "Kubernetes is great."; str "Kubernetes scales well."] /\
  (let chunks := splitIntoChunks 3 (str "Kubernetes is great. Kubernetes scales well.") in
   (exists groups, chunks = map (fun g => Join g space) groups /\
                   concat groups = Fields (str "Kubernetes is great. Kubernetes scales well.")) /\
   concat (map Fields chunks) = Fields (str "Kubernetes is great. Kubernetes scales well.") /\
   Join (concat (map Fields chunks)) space = normalize (str "Kubernetes is great. Kubernetes scales well.") /\
   Z.of_nat (length chunks) =
     (Z.of_nat (length (Fields (str "Kubernetes is great. Kubernetes scales well."))) + 3 - 1) / 3 /\
   Forall (fun c => Z.of_nat (length (Fields c)) <= 3) chunks /\
   (str "Kubernetes is great. Kubernetes scales well." = [] -> chunks = [])).
Proof.
  split; [lia|]. split; [reflexivity|].
  apply splitIntoChunks_spec. lia.
Defined.

(** C6 (as the code behaves): with a chunk size [<= 0] the input is not
    rejected and not kept whole; every word of the text becomes a chunk of
    its own. *)
Theorem splitIntoChunks_nonpos (N : Z) (text : gostring) :
  N <= 0 -> splitIntoChunks N text = Fields text.
Proof.
  intros HN. unfold splitIntoChunks.
  rewrite chunk_loop_nonpos by done. reflexivity.
Qed.

Lemma splitIntoChunks_nonpos_witness :
  0 <= 0 /\ splitIntoChunks 0 (str "a bb  ccc") = Fields (str "a bb  ccc").
Proof. split; [lia|]. apply splitIntoChunks_nonpos. lia. Defined.

(** C6 refuted: with chunk size 0 the two-word text ["a b"] is neither
    rejected (the function has no error result) nor returned as one chunk. *)
Lemma splitIntoChunks_zero_counterexample :
  splitIntoChunks 0 (str "a b") = [str "a"; str "b"] /\
  splitIntoChunks 0 (str "a b") <> [str "a b"].
Proof. split; [reflexivity|]. vm_compute. discriminate. Qed.

(* ------------------------------------------------------------------ *)
(** ** float32 arithmetic *)

Lemma f32mul_comm x y : f32mul x y = f32mul y x.
Proof.
  unfold f32mul, SFmul.
  destruct x as [sx|sx| |sx mx ex], y as [sy|sy| |sy my ey]; try reflexivity;
    rewrite xorb_comm; try reflexivity.
  by rewrite Pos.mul_comm, Z.add_comm.
Qed.

Lemma f32mul_zn_l x y : zero_or_nan x = true -> zero_or_nan (f32mul x y) = true.
Proof. by destruct x, y. Qed.

Lemma f32mul_zn_r x y : zero_or_nan y = true -> zero_or_nan (f32mul x y) = true.
Proof. rewrite f32mul_comm. apply f32mul_zn_l. Qed.

Lemma f32add_zn x y :
  zero_or_nan x = true -> zero_or_nan y = true -> zero_or_nan (f32add x y) = true.
Proof. destruct x as [[]|[]| |], y as [[]|[]| |]; done. Qed.

Lemma sqrt_zn x : zero_or_nan x = true -> zero_or_nan (sqrt x) = true.
Proof. by destruct x. Qed.

Lemma f32div_zn x y :
  zero_or_nan x = true -> zero_or_nan y = true -> f32div x y = S754_nan.
Proof. by destruct x, y. Qed.

Lemma cosine_loop_zero_l a b d na nb :
  all_zero a -> (length a <= length b)%nat ->
  zero_or_nan d = true -> zero_or_nan na = true ->
  exists d' na' nb', cosine_loop a b d na nb = Ok (d', na', nb') /\
    zero_or_nan d' = true /\ zero_or_nan na' = true.
Proof.
  revert b d na nb. induction a as [|x a IH]; intros b d na nb Ha Hlen Hd Hna.
  - by exists d, na, nb.
  - destruct b as [|y b]; [simpl in Hlen; lia|].
    apply Forall_cons in Ha as [[s ->] Ha]. cbn [cosine_loop].
    apply IH; [done|simpl in Hlen; lia| |].
    + apply f32add_zn; [done|by apply f32mul_zn_l].
    + apply f32add_zn; [done|by apply f32mul_zn_l].
Qed.

Lemma cosine_loop_zero_r a b d na nb :
  all_zero b -> (length a <= length b)%nat ->
  zero_or_nan d = true -> zero_or_nan nb = true ->
  exists d' na' nb', cosine_loop a b d na nb = Ok (d', na', nb') /\
    zero_or_nan d' = true /\ zero_or_nan nb' = true.
Proof.
  revert b d na nb. induction a as [|x a IH]; intros b d na nb Hb Hlen Hd Hnb.
  - by exists d, na, nb.
  - destruct b as [|y b]; [simpl in Hlen; lia|].
    apply Forall_cons in Hb as [[s ->] Hb]. cbn [cosine_loop].
    apply IH; [done|simpl in Hlen; lia| |].
    + apply f32add_zn; [done|by apply f32mul_zn_r].
    + apply f32add_zn; [done|by apply f32mul_zn_l].
Qed.

Lemma cosine_loop_swap a b d na nb :
  length a = length b ->
  cosine_loop b a d nb na =
  match cosine_loop a b d na nb with
  | Ok (d', na', nb') => Ok (d', nb', na')
  | o => o
  end.
Proof.
  revert b d na nb. induction a as [|x a IH]; intros b d na nb Hlen.
  - destruct b; [done|discriminate].
  - destruct b as [|y b]; [discriminate|]. cbn [cosine_loop].
    rewrite f32mul_comm. apply IH. simpl in Hlen. lia.
Qed.

(** For vectors of one length, [cosineSimilarity] is symmetric. *)
Lemma cosineSimilarity_sym a b :
  length a = length b -> cosineSimilarity a b = cosineSimilarity b a.
Proof.
  intros Hlen. unfold cosineSimilarity. rewrite (cosine_loop_swap a b) by done.
  destruct (cosine_loop a b f32zero f32zero f32zero) as [[[d na] nb]| |]; try done.
  by rewrite f32mul_comm.
Qed.

(** C3 (as the code behaves): there is no zero-norm guard.  When either
    vector is all zeros (and [b] is at least as long as [a], so that the
    loop does not index [b] out of range), the final division is [0/0] (or
    involves NaN) and [cosineSimilarity] returns NaN, not 0. *)
Theorem cosineSimilarity_zero_nan (a b : list float32) :
  (length a <= length b)%nat -> all_zero a \/ all_zero b ->
  cosineSimilarity a b = Ok S754_nan.
Proof.
  intros Hlen [Ha|Hb]; unfold cosineSimilarity.
  - destruct (cosine_loop_zero_l a b f32zero f32zero f32zero Ha Hlen eq_refl eq_refl)
      as (d & na & nb & -> & Hd & Hna).
    f_equal. apply f32div_zn; [done|]. apply f32mul_zn_l, sqrt_zn, Hna.
  - destruct (cosine_loop_zero_r a b f32zero f32zero f32zero Hb Hlen eq_refl eq_refl)
      as (d & na & nb & -> & Hd & Hnb).
    f_equal. apply f32div_zn; [done|]. apply f32mul_zn_r, sqrt_zn, Hnb.
Qed.

Lemma cosineSimilarity_zero_nan_witness :
  ((length [f32zero] <= length [f32lit 1 0])%nat /\ (all_zero [f32zero] \/ all_zero [f32lit 1 0])) /\
  cosineSimilarity [f32zero] [f32lit 1 0] = Ok S754_nan.
Proof.
  split.
  - split; [simpl; lia|left; constructor; [by exists false|constructor]].
  - apply cosineSimilarity_zero_nan; [simpl; lia|left; constructor; [by exists false|constructor]].
Defined.

(** C3 refuted: the all-zero vector [0] against [1] gives NaN, not 0. *)
Lemma cosineSimilarity_zero_counterexample :
  cosineSimilarity [f32zero] [f32lit 1 0] <> Ok f32zero.
Proof. vm_compute. discriminate. Qed.

(** C4: [sqrt] returns its argument ([float32(float64(x))]), so the
    result is [dot / (|a|^2 |b|^2)]: for [a = b = [0.5]] it is 4, outside
    [-1, 1]. *)
Theorem cosineSimilarity_half_half :
  cosineSimilarity [f32lit 1 (-1)] [f32lit 1 (-1)] = Ok (f32lit 4 0) /\
  sqrt (f32lit 1 (-2)) = f32lit 1 (-2) /\
  SFltb (f32lit 1 0) (f32lit 4 0) = true.
Proof. vm_compute. auto. Qed.

(* ------------------------------------------------------------------ *)
(** ** Read-only computations *)

Create HintDb readonly.

Lemma ret_readonly {A} (a : A) : readonly (ret a).
Proof. done. Qed.

Lemma get_readonly : readonly get.
Proof. done. Qed.

Lemma throw_readonly {A} (e : string) : readonly (@throw A e).
Proof. done. Qed.

Lemma lift_readonly {A} (o : outcome A) : readonly (lift o).
Proof. done. Qed.

Lemma bind_readonly {A B} (m : M A) (f : A -> M B) :
  readonly m -> (forall a, readonly (f a)) -> readonly (bind m f).
Proof.
  intros Hm Hf r. unfold bind. specialize (Hm r).
  destruct (m r) as [r' [a|e|p]]; simpl in *; subst; [apply Hf|done|done].
Qed.

Lemma handle_readonly {A} (m : M A) (h : string -> M A) :
  readonly m -> (forall e, readonly (h e)) -> readonly (handle m h).
Proof.
  intros Hm Hh r. unfold handle. specialize (Hm r).
  destruct (m r) as [r' [a|e|p]]; simpl in *; subst; [done|apply Hh|done].
Qed.

#[export] Hint Resolve ret_readonly get_readonly throw_readonly lift_readonly
  bind_readonly handle_readonly : readonly.

Ltac readonly_step :=
  match goal with
  | |- readonly (match ?x with _ => _ end) => destruct x
  | |- readonly (if ?b then _ else _) => destruct b
  | |- forall _, _ => intro
  | |- readonly (bind _ _) => apply bind_readonly
  | |- readonly (handle _ _) => apply handle_readonly
  | |- _ => solve [eauto with readonly]
  end.

Section Readonly.
Variable CreateEmbeddings : client -> gostring -> outcome (list float32).
Variable CreateChatCompletion : client -> gostring -> gostring -> Z -> outcome gostring.
Variable CreateMessages : client -> gostring -> Z -> outcome gostring.

Lemma getEmbedding_readonly text : readonly (getEmbedding CreateEmbeddings text).
Proof. unfold getEmbedding. repeat readonly_step. Qed.

Lemma findRelevantDocuments_readonly q : readonly (findRelevantDocuments q).
Proof. unfold findRelevantDocuments. repeat readonly_step. Qed.

Lemma generateAnswer_readonly ctx question :
  readonly (generateAnswer CreateChatCompletion CreateMessages ctx question).
Proof. unfold generateAnswer. repeat readonly_step. Qed.
End Readonly.

#[export] Hint Resolve getEmbedding_readonly findRelevantDocuments_readonly
  generateAnswer_readonly : readonly.

(** C10: [Query] leaves the whole receiver unchanged (documents,
    embeddings, chunkSize, maxTokens and the backend selection), whether it
    returns an answer, an error or panics. *)
Theorem Query_frame CreateEmbeddings CreateChatCompletion CreateMessages
    (question : gostring) (r : RAG) :
  (Query CreateEmbeddings CreateChatCompletion CreateMessages question r).1 = r.
Proof.
  revert r. change (readonly (Query CreateEmbeddings CreateChatCompletion CreateMessages question)).
  unfold Query. repeat readonly_step.
Qed.

(** C9: with the Claude backend ([useOpenAI = false], as set by
    [NewRAGWithClaude]) every embedding request fails at once with the
    error "Claude mode requires an OpenAI API key for embeddings ...",
    never returning a vector. *)
Theorem getEmbedding_claude CreateEmbeddings (text : gostring) (r : RAG) :
  useOpenAI r = false ->
  getEmbedding CreateEmbeddings text r = (r, Err claude_mode_error).
Proof. intros H. unfold getEmbedding, bind, get. simpl. by rewrite H. Qed.

Lemma getEmbedding_claude_witness :
  useOpenAI (NewRAGWithClaude "sk-ant-test") = false /\
  getEmbedding embed_const (str "how does Kubernetes scale") (NewRAGWithClaude "sk-ant-test")
  = (NewRAGWithClaude "sk-ant-test", Err claude_mode_error).
Proof. split; [reflexivity|]. apply getEmbedding_claude. reflexivity. Defined.

(** C7 (as the code behaves): the setters store any value, non-positive
    ones included, and change nothing else. *)
Theorem setters_unchecked (r : RAG) (size tokens : Z) :
  SetChunkSize size r = (set_chunkSize r size, Ok tt) /\
  chunkSize (set_chunkSize r size) = size /\
  SetMaxTokens tokens r = (set_maxTokens r tokens, Ok tt) /\
  maxTokens (set_maxTokens r tokens) = tokens.
Proof. done. Qed.

(** C7 refuted: [SetChunkSize(0)] and [SetMaxTokens(-1)] are accepted. *)
Lemma setters_counterexample :
  chunkSize (SetChunkSize 0 (NewRAG "sk-test")).1 = 0 /\
  maxTokens (SetMaxTokens (-1) (NewRAG "sk-test")).1 = -1.
Proof. split; reflexivity. Qed.

(* ------------------------------------------------------------------ *)
(** ** AddDocument *)

Section Ingestion.
Variable CreateEmbeddings : client -> gostring -> outcome (list float32).

(** [getEmbedding] reads only the backend selection of the receiver. *)
Lemma getEmbedding_flags text r r' :
  useOpenAI r' = useOpenAI r -> openaiClient r' = openaiClient r ->
  getEmbedding CreateEmbeddings text r' = (r', (getEmbedding CreateEmbeddings text r).2).
Proof.
  intros Hu Ho. unfold getEmbedding, bind, get. simpl. rewrite Hu, Ho.
  destruct (useOpenAI r); [destruct (openaiClient r)|]; done.
Qed.

Lemma commit_chunks_cons r doc kv kvs :
  commit_chunks (commit_chunks r doc [kv]) doc kvs = commit_chunks r doc (kv :: kvs).
Proof. unfold commit_chunks. simpl. by rewrite <- app_assoc. Qed.

Lemma commit_chunks_flags r doc kvs :
  useOpenAI (commit_chunks r doc kvs) = useOpenAI r /\
  openaiClient (commit_chunks r doc kvs) = openaiClient r /\
  chunkSize (commit_chunks r doc kvs) = chunkSize r.
Proof. done. Qed.

(** The loop of [AddDocument] over chunks whose embeddings succeed
    commits them one by one. *)
Lemma add_chunks_app doc kvs rest r :
  Forall (fun kv => (getEmbedding CreateEmbeddings kv.1 r).2 = Ok kv.2) kvs ->
  add_chunks CreateEmbeddings doc (kvs.*1 ++ rest) r =
  add_chunks CreateEmbeddings doc rest (commit_chunks r doc kvs).
Proof.
  revert r. induction kvs as [|[k v] kvs IH]; intros r Hkvs.
  - simpl. unfold commit_chunks. simpl. rewrite app_nil_r. by destruct r.
  - apply Forall_cons in Hkvs as [Hk Hkvs]. simpl in Hk.
    change (((k, v) :: kvs).*1 ++ rest) with (k :: (kvs.*1 ++ rest)).
    cbn [add_chunks].
    unfold bind at 1, handle.
    rewrite (getEmbedding_flags k r r) by done. rewrite Hk.
    unfold bind at 1, modify.
    unfold bind at 1, modify.
    rewrite IH.
    + rewrite <- commit_chunks_cons. reflexivity.
    + eapply Forall_impl; [exact Hkvs|]. intros [k' v'] Hk'. simpl in *.
      rewrite (getEmbedding_flags k' r) by done. exact Hk'.
Qed.

Lemma dom_commit_chunks r doc kvs :
  dom (embeddings (commit_chunks r doc kvs)) = dom (embeddings r) ∪ list_to_set kvs.*1.
Proof.
  unfold commit_chunks. simpl. generalize (embeddings r) as m.
  induction kvs as [|[k v] kvs IH]; intros m; simpl.
  - set_solver.
  - rewrite IH, dom_insert_L. set_solver.
Qed.

Lemma embeddings_exist r (chunks : list gostring) :
  Forall (fun ch => exists em, (getEmbedding CreateEmbeddings ch r).2 = Ok em) chunks ->
  exists kvs, kvs.*1 = chunks /\
    Forall (fun kv => (getEmbedding CreateEmbeddings kv.1 r).2 = Ok kv.2) kvs.
Proof.
  induction chunks as [|ch chunks IH]; intros H; [by exists []|].
  apply Forall_cons in H as [[em Hem] H]. destruct (IH H) as (kvs & <- & Hkvs).
  exists ((ch, em) :: kvs). split; [done|]. by constructor.
Qed.

Lemma AddDocument_all doc r kvs :
  splitIntoChunks (chunkSize r) (Content doc) = kvs.*1 ->
  Forall (fun kv => (getEmbedding CreateEmbeddings kv.1 r).2 = Ok kv.2) kvs ->
  AddDocument CreateEmbeddings doc r = (commit_chunks r doc kvs, Ok tt).
Proof.
  intros Hsplit Hkvs. unfold AddDocument, bind at 1, get.
  rewrite Hsplit, <- (app_nil_r kvs.*1), add_chunks_app by done. reflexivity.
Qed.

Lemma documents_commit_chunks r doc kvs :
  documents (commit_chunks r doc kvs) = documents r ++ map (chunk_doc doc) kvs.*1.
Proof.
  unfold commit_chunks. simpl. f_equal.
  induction kvs as [|kv kvs IH]; [done|]. simpl. by rewrite IH.
Qed.
End Ingestion.

(** C2 (as the code behaves): ingestion is not atomic.  When the embedding
    of a chunk fails, [AddDocument] returns the wrapped error, and the
    chunks before it, already embedded, stay in the index: appended to
    [documents] and entered in [embeddings]; the failing chunk and the
    ones after it are not added. *)
Theorem AddDocument_commits_prefix CreateEmbeddings (doc : Document) (r : RAG)
    (kvs : list (gostring * list float32)) (failed : gostring) (rest : list gostring)
    (e : string) :
  splitIntoChunks (chunkSize r) (Content doc) = kvs.*1 ++ failed :: rest ->
  Forall (fun kv => (getEmbedding CreateEmbeddings kv.1 r).2 = Ok kv.2) kvs ->
  (getEmbedding CreateEmbeddings failed r).2 = Err e ->
  AddDocument CreateEmbeddings doc r =
  (commit_chunks r doc kvs, Err (errorf "failed to get embedding: " e)).
Proof.
  intros Hsplit Hkvs He. unfold AddDocument, bind at 1, get.
  rewrite Hsplit, add_chunks_app by done. cbn [add_chunks].
  unfold bind at 1, handle.
  rewrite (getEmbedding_flags CreateEmbeddings failed r) by done.
  rewrite He. reflexivity.
Qed.

Lemma AddDocument_commits_prefix_witness :
  let r0 := set_chunkSize (NewRAG "sk-test") 1 in
  let kvs := [(str "a", [f32lit 1 0]); (str "b", [f32lit 1 0])] in
  (splitIntoChunks (chunkSize r0) (Content (article "a b c d e")) = kvs.*1 ++ str "c" :: [str "d"; str "e"] /\
   Forall (fun kv => (getEmbedding embed_fail_on_c kv.1 r0).2 = Ok kv.2) kvs /\
   (getEmbedding embed_fail_on_c (str "c") r0).2 = Err "quota exceeded") /\
  AddDocument embed_fail_on_c (article "a b c d e") r0 =
  (commit_chunks r0 (article "a b c d e") kvs, Err (errorf "failed to get embedding: " "quota exceeded")).
Proof.
  intros r0 kvs.
  assert (H1 : splitIntoChunks (chunkSize r0) (Content (article "a b c d e")) = kvs.*1 ++ str "c" :: [str "d"; str "e"])
    by reflexivity.
  assert (H2 : Forall (fun kv => (getEmbedding embed_fail_on_c kv.1 r0).2 = Ok kv.2) kvs)
    by (repeat constructor).
  assert (H3 : (getEmbedding embed_fail_on_c (str "c") r0).2 = Err "quota exceeded") by reflexivity.
  split; [auto|]. exact (AddDocument_commits_prefix embed_fail_on_c _ r0 kvs _ _ _ H1 H2 H3).
Defined.

(** C2 refuted: with an embedding backend failing on the 3rd of 5 chunks,
    [AddDocument] returns an error but the index, empty before the call,
    now holds the first two chunks. *)
Lemma AddDocument_not_atomic :
  let r0 := set_chunkSize (NewRAG "sk-test") 1 in
  let res := AddDocument embed_fail_on_c (article "a b c d e") r0 in
  res.2 = Err "failed to get embedding: quota exceeded" /\
  documents r0 = [] /\ embeddings r0 = ∅ /\
  map Content (documents res.1) = [str "a"; str "b"] /\
  dom (embeddings res.1) = {[str "a"; str "b"]}.
Proof.
  split; [reflexivity|]. split; [reflexivity|]. split; [reflexivity|]. split; [reflexivity|].
  vm_compute. set_solver.
Qed.

Section Sequences.
Variable CreateEmbeddings : client -> gostring -> outcome (list float32).

Definition all_embed (r : RAG) : Prop :=
  forall ch, exists em, (getEmbedding CreateEmbeddings ch r).2 = Ok em.

Lemma commit_chunks_nil r doc : commit_chunks r doc [] = r.
Proof. unfold commit_chunks. simpl. rewrite app_nil_r. by destruct r. Qed.

Lemma all_embed_flags r r' :
  useOpenAI r' = useOpenAI r -> openaiClient r' = openaiClient r ->
  all_embed r -> all_embed r'.
Proof.
  intros Hu Ho H ch. destruct (H ch) as [em Hem]. exists em.
  by rewrite (getEmbedding_flags CreateEmbeddings ch r r').
Qed.

(** Whatever its outcome, the chunk loop of [AddDocument] commits a prefix
    of the chunks; all of them when every embedding succeeds. *)
Lemma add_chunks_prefix doc chunks r :
  exists kvs, kvs.*1 `prefix_of` chunks /\
    (add_chunks CreateEmbeddings doc chunks r).1 = commit_chunks r doc kvs /\
    (all_embed r -> kvs.*1 = chunks).
Proof.
  revert r. induction chunks as [|ch chunks IH]; intros r.
  - exists []. split; [done|]. split; [by rewrite commit_chunks_nil|done].
  - remember (add_chunks CreateEmbeddings doc (ch :: chunks) r) as res eqn:E.
    cbn [add_chunks] in E. unfold bind at 1, handle in E.
    rewrite (getEmbedding_flags CreateEmbeddings ch r r) in E by done.
    destruct (getEmbedding CreateEmbeddings ch r).2 as [v|e|p] eqn:Hch;
      simpl in E; subst res.
    + unfold bind at 1, modify. unfold bind at 1, modify.
      set (r1 := set_embeddings _ _).
      assert (Hr1 : r1 = commit_chunks r doc [(ch, v)]) by reflexivity.
      destruct (IH r1) as (kvs & Hpre & Hres & Hall).
      exists ((ch, v) :: kvs). split; [|split].
      * by apply prefix_cons.
      * rewrite Hres, Hr1. apply commit_chunks_cons.
      * intros Hae. simpl. f_equal. apply Hall.
        rewrite Hr1. apply (all_embed_flags r); [done|done|exact Hae].
    + exists []. split; [apply prefix_nil|]. split; [by rewrite commit_chunks_nil|].
      intros Hae. destruct (Hae ch) as [em Hem]. congruence.
    + exists []. split; [apply prefix_nil|]. split; [by rewrite commit_chunks_nil|].
      intros Hae. destruct (Hae ch) as [em Hem]. congruence.
Qed.

Lemma count_chunk_docs doc (cs : list gostring) (t : gostring) :
  length (filter (fun d => Content d = t) (map (chunk_doc doc) cs)) =
  length (filter (fun c => c = t) cs).
Proof.
  induction cs as [|c cs IH]; [done|]. cbn [map]. rewrite !filter_cons. simpl.
  destruct (decide (c = t)); simpl; by rewrite IH.
Qed.
End Sequences.

(** C8: every chunk ingestion appends one entry to the chunk list, and the
    embedding map is keyed by chunk text.  For any sequence of
    [AddDocument] calls (any documents, sources and order, each call
    starting from the state the previous one left, whatever it returned),
    each call commits a prefix of its document's chunks (all of them when
    the embeddings succeed); the chunk list grows by one entry per
    committed chunk, so a text committed [k] times appears [k] more times;
    and the key set of the embedding map grows by the set of committed
    texts, so chunks with one text share one entry. *)
Theorem AddDocument_shared_text CreateEmbeddings (docs : list Document) (r : RAG) :
  exists kvss : list (list (gostring * list float32)),
    Forall2 (fun doc kvs => kvs.*1 `prefix_of` splitIntoChunks (chunkSize r) (Content doc)) docs kvss /\
    (all_embed CreateEmbeddings r ->
       Forall2 (fun doc kvs => kvs.*1 = splitIntoChunks (chunkSize r) (Content doc)) docs kvss) /\
    documents (ingest_seq CreateEmbeddings docs r) =
      documents r ++ concat (zip_with (fun doc kvs => map (chunk_doc doc) kvs.*1) docs kvss) /\
    dom (embeddings (ingest_seq CreateEmbeddings docs r)) =
      dom (embeddings r) ∪ list_to_set (concat (map (fun kvs => kvs.*1) kvss)) /\
    (forall t : gostring,
       (length (filter (fun d => Content d = t) (documents (ingest_seq CreateEmbeddings docs r))) =
       length (filter (fun d => Content d = t) (documents r)) +
       length (filter (fun c => c = t) (concat (map (fun kvs => kvs.*1) kvss))))%nat).
Proof.
  revert r. induction docs as [|doc docs IH]; intros r.
  - exists []. simpl. rewrite app_nil_r. split; [done|]. split; [done|].
    split; [done|]. split; [set_solver|lia].
  - destruct (add_chunks_prefix CreateEmbeddings doc (splitIntoChunks (chunkSize r) (Content doc)) r)
      as (kvs & Hpre & Hres & Hall).
    assert (E : (AddDocument CreateEmbeddings doc r).1 = commit_chunks r doc kvs) by exact Hres.
    cbn [ingest_seq]. rewrite E.
    set (r1 := commit_chunks r doc kvs).
    destruct (commit_chunks_flags r doc kvs) as (Hu & Ho & Hc).
    destruct (IH r1) as (kvss & Hpre' & Hall' & Hdocs & Hdom & Hcount).
    fold r1 in Hu, Ho, Hc. rewrite Hc in Hpre', Hall'.
    exists (kvs :: kvss). split; [|split; [|split; [|split]]].
    + by constructor.
    + intros Hae. constructor; [by apply Hall|]. apply Hall'.
      apply (all_embed_flags CreateEmbeddings r); [done|done|exact Hae].
    + rewrite Hdocs. unfold r1. rewrite documents_commit_chunks. cbn [zip_with concat].
      by rewrite <- app_assoc.
    + rewrite Hdom. unfold r1. rewrite dom_commit_chunks. cbn [map concat].
      rewrite list_to_set_app_L. set_solver.
    + intros t. rewrite Hcount. unfold r1. rewrite documents_commit_chunks.
      cbn [map concat]. rewrite !filter_app, !length_app, count_chunk_docs. lia.
Qed.

Lemma AddDocument_shared_text_witness :
  let r0 := set_chunkSize (NewRAG "sk-test") 2 in
  let docs := [mkDocument (str "a b x") (str "guide-1") (str "doc");
               mkDocument (str "y") (str "guide-2") (str "doc");
               mkDocument (str "a b") (str "guide-3") (str "article")] in
  (documents (ingest_seq embed_const docs r0) =
     [mkDocument (str "a b") (str "guide-1") (str "doc");
      mkDocument (str "x") (str "guide-1") (str "doc");
      mkDocument (str "y") (str "guide-2") (str "doc");
      mkDocument (str "a b") (str "guide-3") (str "article")] /\
   dom (embeddings (ingest_seq embed_const docs r0)) = {[str "a b"; str "x"; str "y"]}) /\
  exists kvss : list (list (gostring * list float32)),
    Forall2 (fun doc kvs => kvs.*1 `prefix_of` splitIntoChunks (chunkSize r0) (Content doc)) docs kvss /\
    (all_embed embed_const r0 ->
       Forall2 (fun doc kvs => kvs.*1 = splitIntoChunks (chunkSize r0) (Content doc)) docs kvss) /\
    documents (ingest_seq embed_const docs r0) =
      documents r0 ++ concat (zip_with (fun doc kvs => map (chunk_doc doc) kvs.*1) docs kvss) /\
    dom (embeddings (ingest_seq embed_const docs r0)) =
      dom (embeddings r0) ∪ list_to_set (concat (map (fun kvs => kvs.*1) kvss)) /\
    (forall t : gostring,
       (length (filter (fun d => Content d = t) (documents (ingest_seq embed_const docs r0))) =
       length (filter (fun d => Content d = t) (documents r0)) +
       length (filter (fun c => c = t) (concat (map (fun kvs => kvs.*1) kvss))))%nat).
Proof.
  intros r0 docs. split.
  - split; [reflexivity|]. vm_compute. set_solver.
  - exact (AddDocument_shared_text embed_const docs r0).
Defined.

(* ------------------------------------------------------------------ *)
(** ** findRelevantDocuments *)

Lemma score_docs_docs embs q docs scores :
  score_docs embs q docs = Ok scores -> scores.*1 = docs.
Proof.
  revert scores. induction docs as [|d docs IH]; intros scores H; simpl in H.
  - by injection H as <-.
  - destruct (cosineSimilarity q _); try discriminate.
    destruct (score_docs embs q docs) as [s| |] eqn:E; try discriminate.
    injection H as <-. rewrite fmap_cons. simpl. by rewrite (IH s).
Qed.

Lemma top_loop_take i scores :
  (i <= 3)%nat -> top_loop i scores = take (3 - i) scores.*1.
Proof.
  revert i. induction scores as [|s scores IH]; intros i Hi; simpl.
  - by rewrite take_nil.
  - destruct (i <? 3)%nat eqn:E.
    + apply Nat.ltb_lt in E. rewrite IH by lia.
      replace (3 - i)%nat with (S (3 - S i)) by lia. done.
    + apply Nat.ltb_ge in E. replace (3 - i)%nat with 0%nat by lia. done.
Qed.

(** Whenever no score computation panics, [findRelevantDocuments] returns
    the first three indexed chunks in ingestion order, whatever their
    scores. *)
Lemma findRelevantDocuments_first_three q r scores :
  score_docs (embeddings r) q (documents r) = Ok scores ->
  findRelevantDocuments q r = (r, Ok (take 3 (documents r))).
Proof.
  intros H. unfold findRelevantDocuments, bind, get, lift, ret. simpl.
  rewrite H. rewrite top_loop_take by lia. by rewrite (score_docs_docs _ _ _ _ H).
Qed.

(** C1: the chunks ["a"] .. ["e"], ingested in that order, score 1/16,
    1/8, 1/4, 1/2 and 1 against the query; [findRelevantDocuments] returns
    ["a"], ["b"], ["c"] (the three lowest scores, ascending) instead of
    ["e"], ["d"], ["c"]. *)
Theorem findRelevantDocuments_unsorted :
  score_docs (embeddings five_chunks_index) unit_query (documents five_chunks_index) =
    Ok (zip (documents five_chunks_index)
          [f32lit 1 (-4); f32lit 1 (-3); f32lit 1 (-2); f32lit 1 (-1); f32lit 1 0]) /\
  findRelevantDocuments unit_query five_chunks_index =
    (five_chunks_index, Ok (take 3 (documents five_chunks_index))) /\
  map Content (take 3 (documents five_chunks_index)) = [str "a"; str "b"; str "c"].
Proof. vm_compute. auto. Qed.

(* ------------------------------------------------------------------ *)
(** ** When scoring panics *)

Lemma cosine_loop_ok a b d na nb :
  (length a <= length b)%nat -> exists t, cosine_loop a b d na nb = Ok t.
Proof.
  revert b d na nb. induction a as [|x a IH]; intros b d na nb Hlen; [by eexists|].
  destruct b as [|y b]; [simpl in Hlen; lia|]. cbn [cosine_loop].
  apply IH. simpl in Hlen. lia.
Qed.

Lemma cosine_loop_panic a b d na nb :
  (length b < length a)%nat ->
  cosine_loop a b d na nb = Panic "runtime error: index out of range".
Proof.
  revert b d na nb. induction a as [|x a IH]; intros b d na nb Hlen; [simpl in Hlen; lia|].
  destruct b as [|y b]; [done|]. cbn [cosine_loop].
  apply IH. simpl in Hlen. lia.
Qed.

(** [cosineSimilarity a b] indexes [b] by the indices of [a]: it panics
    exactly when [b] is shorter than [a], and never returns an error. *)
Theorem cosineSimilarity_panics_iff (a b : list float32) :
  (cosineSimilarity a b = Panic "runtime error: index out of range" <-> (length b < length a)%nat) /\
  ((length a <= length b)%nat -> exists s, cosineSimilarity a b = Ok s) /\
  (forall e, cosineSimilarity a b <> Err e).
Proof.
  unfold cosineSimilarity.
  destruct (decide (length b < length a)%nat) as [Hlt|Hge].
  - rewrite cosine_loop_panic by done.
    split; [done|]. split; [lia|]. done.
  - destruct (cosine_loop_ok a b f32zero f32zero f32zero) as [[[d na] nb] ->]; [lia|].
    split; [split; [discriminate|lia]|]. split; [by eexists|]. done.
Qed.

Lemma cosineSimilarity_panics_iff_witness :
  (cosineSimilarity [f32lit 1 0; f32lit 2 0] [f32lit 1 0] = Panic "runtime error: index out of range" <->
   (length [f32lit 1 0] < length [f32lit 1 0; f32lit 2 0])%nat) /\
  ((length [f32lit 1 0; f32lit 2 0] <= length [f32lit 1 0])%nat ->
   exists s, cosineSimilarity [f32lit 1 0; f32lit 2 0] [f32lit 1 0] = Ok s) /\
  (forall e, cosineSimilarity [f32lit 1 0; f32lit 2 0] [f32lit 1 0] <> Err e).
Proof. exact (cosineSimilarity_panics_iff [f32lit 1 0; f32lit 2 0] [f32lit 1 0]). Defined.

Lemma cosineSimilarity_sym_witness :
  length [f32lit 1 0; f32lit 3 0] = length [f32lit 2 0; f32zero] /\
  cosineSimilarity [f32lit 1 0; f32lit 3 0] [f32lit 2 0; f32zero] =
  cosineSimilarity [f32lit 2 0; f32zero] [f32lit 1 0; f32lit 3 0].
Proof. split; [reflexivity|]. apply cosineSimilarity_sym. reflexivity. Defined.

Lemma score_docs_ok embs q docs :
  Forall (fun d => (length q <= length (default [] (embs !! Content d)))%nat) docs ->
  exists scores, score_docs embs q docs = Ok scores.
Proof.
  induction docs as [|d docs IH]; intros H; [by eexists|].
  apply Forall_cons in H as [Hd H]. simpl.
  destruct (cosineSimilarity_panics_iff q (default [] (embs !! Content d))) as (_ & Hok & _).
  destruct (Hok Hd) as [s ->]. destruct (IH H) as [scores ->]. by eexists.
Qed.

Lemma score_docs_panic embs q docs :
  Exists (fun d => (length (default [] (embs !! Content d)) < length q)%nat) docs ->
  exists p, score_docs embs q docs = Panic p.
Proof.
  induction docs as [|d docs IH]; intros H; [by apply Exists_nil in H|].
  simpl. destruct (cosineSimilarity_panics_iff q (default [] (embs !! Content d))) as ([_ Hp] & _ & Herr).
  apply Exists_cons in H as [Hd|H].
  - rewrite Hp by done. by eexists.
  - destruct (cosineSimilarity q _) as [s|e|p]; [|by destruct (Herr e)|by eexists].
    destruct (IH H) as [p ->]. by eexists.
Qed.

(** When every indexed chunk has a stored embedding at least as long as
    the query embedding, [findRelevantDocuments] does not panic and returns
    the first three chunks of the index, leaving it unchanged. *)
Theorem findRelevantDocuments_no_panic (q : list float32) (r : RAG) :
  Forall (fun d => exists e, embeddings r !! Content d = Some e /\ (length q <= length e)%nat)
    (documents r) ->
  findRelevantDocuments q r = (r, Ok (take 3 (documents r))).
Proof.
  intros H. destruct (score_docs_ok (embeddings r) q (documents r)) as [scores Hs].
  - eapply Forall_impl; [exact H|]. intros d (e & -> & Hle). done.
  - by apply (findRelevantDocuments_first_three q r scores).
Qed.

Lemma findRelevantDocuments_no_panic_witness :
  Forall (fun d => exists e, embeddings five_chunks_index !! Content d = Some e /\
                             (length unit_query <= length e)%nat)
    (documents five_chunks_index) /\
  findRelevantDocuments unit_query five_chunks_index =
    (five_chunks_index, Ok (take 3 (documents five_chunks_index))).
Proof.
  assert (H : Forall (fun d => exists e, embeddings five_chunks_index !! Content d = Some e /\
                             (length unit_query <= length e)%nat)
                (documents five_chunks_index))
    by (cbn [documents five_chunks_index map];
        repeat (apply Forall_cons_2; [eexists; split; [reflexivity|simpl; lia]|]);
        apply Forall_nil_2).
  split; [exact H|]. exact (findRelevantDocuments_no_panic unit_query five_chunks_index H).
Defined.

(** If one indexed chunk has a stored embedding shorter than the query
    embedding, or none at all (read as the nil slice) while the query
    embedding is not empty, [findRelevantDocuments] panics with an index
    out of range, leaving the index unchanged. *)
Theorem findRelevantDocuments_panics (q : list float32) (r : RAG) (d : Document) :
  d ∈ documents r ->
  (length (default [] (embeddings r !! Content d)) < length q)%nat ->
  exists p, findRelevantDocuments q r = (r, Panic p).
Proof.
  intros Hin Hlt. destruct (score_docs_panic (embeddings r) q (documents r)) as [p Hp].
  - apply Exists_exists. by exists d.
  - exists p. unfold findRelevantDocuments, bind, get, lift. simpl. by rewrite Hp.
Qed.

Lemma findRelevantDocuments_panics_witness :
  let r0 := set_embeddings five_chunks_index (delete (str "c") (embeddings five_chunks_index)) in
  (chunk_doc (article "a b c d e") (str "c") ∈ documents r0 /\
   (length (default [] (embeddings r0 !! Content (chunk_doc (article "a b c d e") (str "c"))))
      < length unit_query)%nat) /\
  exists p, findRelevantDocuments unit_query r0 = (r0, Panic p).
Proof.
  intros r0.
  assert (H1 : chunk_doc (article "a b c d e") (str "c") ∈ documents r0)
    by (unfold r0; cbn [documents set_embeddings five_chunks_index map];
        do 2 apply list_elem_of_further; apply list_elem_of_here).
  assert (H2 : (length (default [] (embeddings r0 !! Content (chunk_doc (article "a b c d e") (str "c"))))
      < length unit_query)%nat) by (vm_compute; lia).
  split; [done|]. exact (findRelevantDocuments_panics unit_query r0 _ H1 H2).
Defined.

(* ------------------------------------------------------------------ *)
(** ** buildContext and Query *)

(** Every retrieved chunk appears in the prompt context as one contiguous
    block ["Source: " ++ source ++ "\n" ++ content ++ "\n\n"], after the
    preamble, in the order of retrieval. *)
Theorem buildContext_attribution (docs : list Document) (d : Document) :
  d ∈ docs ->
  exists before after,
    buildContext docs =
      str "Based on the following information:" ++ [10; 10] ++ before ++
      (str "Source: " ++ Source d ++ [10] ++ Content d ++ [10; 10]) ++ after.
Proof.
  intros Hin. apply list_elem_of_split in Hin as (l1 & l2 & ->).
  exists (concat (map (fun doc => str "Source: " ++ Source doc ++ [10] ++ Content doc ++ [10; 10]) l1)),
         (concat (map (fun doc => str "Source: " ++ Source doc ++ [10] ++ Content doc ++ [10; 10]) l2)).
  unfold buildContext. rewrite map_app, concat_app. cbn [map concat].
  by rewrite !app_assoc.
Qed.

Lemma buildContext_attribution_witness :
  let docs := [mkDocument (str "k8s scales") (str "K8s Guide") (str "doc");
               mkDocument (str "use spot") (str "AWS Guide") (str "article")] in
  mkDocument (str "use spot") (str "AWS Guide") (str "article") ∈ docs /\
  exists before after,
    buildContext docs =
      str "Based on the following information:" ++ [10; 10] ++ before ++
      (str "Source: " ++ str "AWS Guide" ++ [10] ++ str "use spot" ++ [10; 10]) ++ after.
Proof.
  intros docs.
  assert (H : mkDocument (str "use spot") (str "AWS Guide") (str "article") ∈ docs)
    by (apply list_elem_of_further, list_elem_of_here).
  split; [exact H|]. exact (buildContext_attribution docs _ H).
Defined.

Section QueryFlow.
Variable CreateEmbeddings : client -> gostring -> outcome (list float32).
Variable CreateChatCompletion : client -> gostring -> gostring -> Z -> outcome gostring.
Variable CreateMessages : client -> gostring -> Z -> outcome gostring.

Lemma Query_after_embedding question r qe :
  (getEmbedding CreateEmbeddings question r).2 = Ok qe ->
  Query CreateEmbeddings CreateChatCompletion CreateMessages question r =
  (relevantDocs <- findRelevantDocuments qe ;;
   generateAnswer CreateChatCompletion CreateMessages (buildContext relevantDocs) question) r.
Proof.
  intros H. unfold Query, bind at 1, handle.
  rewrite (getEmbedding_flags CreateEmbeddings question r r) by done.
  by rewrite H.
Qed.

Lemma Query_embedding_failure question r e :
  (getEmbedding CreateEmbeddings question r).2 = Err e ->
  Query CreateEmbeddings CreateChatCompletion CreateMessages question r =
  (r, Err (errorf "failed to get question embedding: " e)).
Proof.
  intros H. unfold Query, bind at 1, handle.
  rewrite (getEmbedding_flags CreateEmbeddings question r r) by done.
  by rewrite H.
Qed.

Lemma Query_claude_mode question r :
  useOpenAI r = false ->
  Query CreateEmbeddings CreateChatCompletion CreateMessages question r =
  (r, Err (errorf "failed to get question embedding: " claude_mode_error)).
Proof.
  intros H. apply Query_embedding_failure.
  unfold getEmbedding, bind, get. simpl. by rewrite H.
Qed.
End QueryFlow.

(** With the OpenAI backend, once the question is embedded and no score
    computation can panic, [Query] sends one chat completion whose user
    message is the context of the first three indexed chunks, a blank
    line and ["Question: " ++ question], with the system prompt and
    [maxTokens], and returns its outcome as is. *)
Theorem Query_openai_prompt CreateEmbeddings CreateChatCompletion CreateMessages
    (question : gostring) (r : RAG) (c : client) (qe : list float32) :
  useOpenAI r = true -> openaiClient r = Some c ->
  CreateEmbeddings c question = Ok qe ->
  Forall (fun d => exists e, embeddings r !! Content d = Some e /\ (length qe <= length e)%nat)
    (documents r) ->
  Query CreateEmbeddings CreateChatCompletion CreateMessages question r =
  (r, CreateChatCompletion c systemPrompt
        (buildContext (take 3 (documents r)) ++ [10; 10] ++ str "Question: " ++ question)
        (maxTokens r)).
Proof.
  intros Hu Hc Hq Hdocs.
  rewrite (Query_after_embedding CreateEmbeddings CreateChatCompletion CreateMessages question r qe)
    by (unfold getEmbedding, bind, get, lift; simpl; by rewrite Hu, Hc, Hq).
  destruct (score_docs_ok (embeddings r) qe (documents r)) as [scores Hs].
  { eapply Forall_impl; [exact Hdocs|]. intros d (e & -> & Hle). done. }
  unfold bind at 1. rewrite (findRelevantDocuments_first_three qe r scores Hs).
  unfold generateAnswer, bind, get, lift. simpl. by rewrite Hu, Hc.
Qed.

Lemma Query_openai_prompt_witness :
  let r0 := five_chunks_index in
  let c := "sk-test"%string in
  (useOpenAI r0 = true /\ openaiClient r0 = Some c /\
   embed_const c (str "how to scale?") = Ok unit_query /\
   Forall (fun d => exists e, embeddings r0 !! Content d = Some e /\ (length unit_query <= length e)%nat)
     (documents r0)) /\
  Query embed_const no_chat no_messages (str "how to scale?") r0 =
  (r0, no_chat c systemPrompt
         (buildContext (take 3 (documents r0)) ++ [10; 10] ++ str "Question: " ++ str "how to scale?")
         (maxTokens r0)).
Proof.
  intros r0 c.
  assert (H1 : useOpenAI r0 = true) by reflexivity.
  assert (H2 : openaiClient r0 = Some c) by reflexivity.
  assert (H3 : embed_const c (str "how to scale?") = Ok unit_query) by reflexivity.
  assert (H4 : Forall (fun d => exists e, embeddings r0 !! Content d = Some e /\ (length unit_query <= length e)%nat)
                 (documents r0))
    by (cbn [r0 documents five_chunks_index map];
        repeat (apply Forall_cons_2; [eexists; split; [reflexivity|simpl; lia]|]);
        apply Forall_nil_2).
  split; [auto|].
  exact (Query_openai_prompt embed_const no_chat no_messages _ r0 c unit_query H1 H2 H3 H4).
Defined.

(** When embedding the question fails, [Query] returns that error wrapped
    as ["failed to get question embedding: " ++ err], calls no generation
    backend and leaves the receiver unchanged. *)
Theorem Query_embedding_error CreateEmbeddings CreateChatCompletion CreateMessages
    (question : gostring) (r : RAG) (e : string) :
  (getEmbedding CreateEmbeddings question r).2 = Err e ->
  Query CreateEmbeddings CreateChatCompletion CreateMessages question r =
  (r, Err (errorf "failed to get question embedding: " e)).
Proof. apply Query_embedding_failure. Qed.

Lemma Query_embedding_error_witness :
  (getEmbedding embed_fail_on_c (str "c") (NewRAG "sk-test")).2 = Err "quota exceeded" /\
  Query embed_fail_on_c no_chat no_messages (str "c") (NewRAG "sk-test") =
  (NewRAG "sk-test", Err (errorf "failed to get question embedding: " "quota exceeded")).
Proof.
  assert (H : (getEmbedding embed_fail_on_c (str "c") (NewRAG "sk-test")).2 = Err "quota exceeded")
    by reflexivity.
  split; [exact H|]. exact (Query_embedding_error embed_fail_on_c no_chat no_messages _ _ _ H).
Defined.

(* ------------------------------------------------------------------ *)
(** ** AddDocument: empty texts, Claude mode, the index invariant *)

Lemma splitIntoChunks_no_words (N : Z) (text : gostring) :
  Fields text = [] -> splitIntoChunks N text = [].
Proof. intros H. unfold splitIntoChunks. by rewrite H. Qed.

Lemma splitIntoChunks_some_words (N : Z) (text : gostring) :
  Fields text <> [] -> splitIntoChunks N text <> [].
Proof.
  intros H. destruct (decide (0 < N)) as [HN|HN].
  - destruct (splitIntoChunks_groups N text HN) as (gs & last & Hc & Hcat & _).
    rewrite Hc. intros E. apply map_eq_nil in E. rewrite E in Hcat. by apply H.
  - unfold splitIntoChunks. rewrite chunk_loop_nonpos by lia. simpl.
    destruct (Fields text); [done|]. by destruct (0 <? 0)%nat.
Qed.

(** A document without words (an empty or all-blank text) is accepted
    without any embedding request and leaves the index unchanged. *)
Theorem AddDocument_no_words CreateEmbeddings (doc : Document) (r : RAG) :
  Fields (Content doc) = [] ->
  AddDocument CreateEmbeddings doc r = (r, Ok tt).
Proof.
  intros H. unfold AddDocument, bind, get. simpl.
  by rewrite splitIntoChunks_no_words.
Qed.

Lemma AddDocument_no_words_witness :
  Fields (Content (mkDocument [32; 10; 9; 12288] (str "blank") (str "doc"))) = [] /\
  AddDocument embed_fail_on_c (mkDocument [32; 10; 9; 12288] (str "blank") (str "doc")) (NewRAG "sk-test")
  = (NewRAG "sk-test", Ok tt).
Proof.
  assert (H : Fields (Content (mkDocument [32; 10; 9; 12288] (str "blank") (str "doc"))) = [])
    by reflexivity.
  split; [exact H|]. exact (AddDocument_no_words embed_fail_on_c _ _ H).
Defined.

Section ClaudeIngestion.
Variable CreateEmbeddings : client -> gostring -> outcome (list float32).

Lemma add_chunks_claude doc chunks r :
  useOpenAI r = false ->
  add_chunks CreateEmbeddings doc chunks r =
  (r, match chunks with [] => Ok tt | _ => Err (errorf "failed to get embedding: " claude_mode_error) end).
Proof.
  intros H. destruct chunks as [|ch chunks]; [done|]. cbn [add_chunks].
  unfold bind at 1, handle, getEmbedding, bind, get. simpl. by rewrite H.
Qed.

Lemma AddDocument_claude doc r :
  useOpenAI r = false ->
  AddDocument CreateEmbeddings doc r =
  (r, match Fields (Content doc) with
      | [] => Ok tt
      | _ => Err (errorf "failed to get embedding: " claude_mode_error)
      end).
Proof.
  intros H. unfold AddDocument, bind at 1, get. rewrite add_chunks_claude by done.
  destruct (Fields (Content doc)) as [|w ws] eqn:E.
  - by rewrite splitIntoChunks_no_words.
  - destruct (splitIntoChunks (chunkSize r) (Content doc)) eqn:E'; [|done].
    exfalso. apply (splitIntoChunks_some_words (chunkSize r) (Content doc)); [by rewrite E|done].
Qed.
End ClaudeIngestion.

(** With the Claude backend, a document with at least one word is
    rejected with ["failed to get embedding: " ++ the Claude-mode error],
    whatever the chunk size, and nothing is indexed. *)
Theorem AddDocument_claude_mode CreateEmbeddings (doc : Document) (r : RAG) :
  useOpenAI r = false -> Fields (Content doc) <> [] ->
  AddDocument CreateEmbeddings doc r = (r, Err (errorf "failed to get embedding: " claude_mode_error)).
Proof.
  intros Hu Hw. rewrite AddDocument_claude by done.
  by destruct (Fields (Content doc)).
Qed.

Lemma AddDocument_claude_mode_witness :
  (useOpenAI (NewRAGWithClaude "sk-ant-test") = false /\
   Fields (Content (article "Kubernetes scales")) <> []) /\
  AddDocument embed_const (article "Kubernetes scales") (NewRAGWithClaude "sk-ant-test") =
  (NewRAGWithClaude "sk-ant-test", Err (errorf "failed to get embedding: " claude_mode_error)).
Proof.
  assert (H1 : useOpenAI (NewRAGWithClaude "sk-ant-test") = false) by reflexivity.
  assert (H2 : Fields (Content (article "Kubernetes scales")) <> []) by (vm_compute; discriminate).
  split; [auto|]. exact (AddDocument_claude_mode embed_const _ _ H1 H2).
Defined.

(* ------------------------------------------------------------------ *)
(** ** Re-splitting a chunk *)

Lemma Forall_concat_elem {A} (P : A -> Prop) (ls : list (list A)) (l : list A) :
  Forall P (concat ls) -> l ∈ ls -> Forall P l.
Proof.
  induction ls as [|l' ls IH]; intros H Hin; [by apply elem_of_nil in Hin|].
  cbn [concat] in H. apply Forall_app in H as [H1 H2].
  apply elem_of_cons in Hin as [->|Hin]; [done|by apply IH].
Qed.

Lemma splitIntoChunks_group (N : Z) (g : list gostring) :
  0 < N -> Forall word_ok g -> (0 < length g)%nat -> Z.of_nat (length g) <= N ->
  splitIntoChunks N (Join g space) = [Join g space].
Proof.
  intros HN Hok Hpos Hle. unfold splitIntoChunks. rewrite Fields_Join by done.
  destruct (chunk_loop_inv N g [] [] HN) as (gs & H1 & H2 & H3 & H4); [simpl; lia|].
  destruct (fold_left (chunk_step N) g ([], [])) as [chunks cur].
  simpl in H1, H3, H4. subst chunks.
  pose proof (length_concat_groups N gs H2) as Hlen.
  assert (Hsum : Z.of_nat (length (concat gs)) + Z.of_nat (length cur) = Z.of_nat (length g))
    by (rewrite <- H3, length_app; lia).
  destruct gs as [|g1 [|g2 gs]].
  - simpl in H3 |- *. subst cur. by destruct (length g) eqn:E; [lia|].
  - simpl in Hlen, H3. rewrite app_nil_r in H3.
    destruct cur as [|c cur]; [|simpl in Hsum; lia].
    rewrite app_nil_r in H3. subst g1. done.
  - cbn [length] in Hlen. nia.
Qed.

(** For a chunk size [N > 0], every chunk is a fixed point of chunking:
    splitting it again with the same size gives back exactly that one
    chunk. *)
Theorem splitIntoChunks_resplit (N : Z) (text c : gostring) :
  0 < N -> c ∈ splitIntoChunks N text -> splitIntoChunks N c = [c].
Proof.
  intros HN Hin.
  destruct (splitIntoChunks_groups N text HN) as (gs & last & Hc & Hcat & Hgs & Hlast & _).
  rewrite Hc in Hin. apply list_elem_of_fmap in Hin as (g & -> & Hg).
  assert (Hok : Forall word_ok g).
  { apply (Forall_concat_elem _ (gs ++ last)); [rewrite Hcat; apply Fields_ok|done]. }
  apply elem_of_app in Hg as [Hg|Hg].
  - rewrite Forall_forall in Hgs. specialize (Hgs g Hg).
    apply splitIntoChunks_group; [done|done|lia|lia].
  - rewrite Forall_forall in Hlast. specialize (Hlast g Hg).
    apply splitIntoChunks_group; [done|done|lia|lia].
Qed.

Lemma splitIntoChunks_resplit_witness :
  (0 < 3 /\ str "Kubernetes scales well." ∈
     splitIntoChunks 3 (str "Kubernetes is great. Kubernetes scales well.")) /\
  splitIntoChunks 3 (str "Kubernetes scales well.") = [str "Kubernetes scales well."].
Proof.
  assert (H1 : 0 < 3) by lia.
  assert (H2 : str "Kubernetes scales well." ∈
     splitIntoChunks 3 (str "Kubernetes is great. Kubernetes scales well.")).
  { change (splitIntoChunks 3 (str "Kubernetes is great. Kubernetes scales well."))
      with [str "Kubernetes is great."; str "Kubernetes scales well."].
    apply list_elem_of_further, list_elem_of_here. }
  split; [auto|]. exact (splitIntoChunks_resplit 3 _ _ H1 H2).
Defined.

(* ------------------------------------------------------------------ *)
(** ** The index invariant *)

Lemma index_ok_modify_chunk r doc chunk v :
  index_ok r ->
  index_ok (set_embeddings
              (set_documents r (documents r ++ [mkDocument chunk (Source doc) (Type_ doc)]))
              (<[chunk := v]> (embeddings (set_documents r (documents r ++ [mkDocument chunk (Source doc) (Type_ doc)]))))).
Proof.
  intros H. unfold index_ok in *. simpl. apply Forall_app. split.
  - eapply Forall_impl; [exact H|]. intros d Hd. apply lookup_insert_is_Some'. by right.
  - constructor; [|done]. apply lookup_insert_is_Some'. by left.
Qed.

Section Invariant.
Variable CreateEmbeddings : client -> gostring -> outcome (list float32).
Variable CreateChatCompletion : client -> gostring -> gostring -> Z -> outcome gostring.
Variable CreateMessages : client -> gostring -> Z -> outcome gostring.
Variable fetch : gostring -> option gostring.

Lemma add_chunks_index_ok doc chunks r :
  index_ok r -> index_ok (add_chunks CreateEmbeddings doc chunks r).1.
Proof.
  revert r. induction chunks as [|ch chunks IH]; intros r H; [done|].
  cbn [add_chunks]. unfold bind at 1, handle.
  rewrite (getEmbedding_flags CreateEmbeddings ch r r) by done.
  destruct (getEmbedding CreateEmbeddings ch r).2 as [v|e|p]; simpl; [|done|done].
  unfold bind at 1, modify. unfold bind at 1, modify.
  apply IH. by apply index_ok_modify_chunk.
Qed.

Lemma AddDocument_index_ok doc r :
  index_ok r -> index_ok (AddDocument CreateEmbeddings doc r).1.
Proof. intros H. by apply add_chunks_index_ok. Qed.

Lemma add_all_index_ok docs r :
  index_ok r -> index_ok (add_all CreateEmbeddings docs r).1.
Proof.
  revert r. induction docs as [|doc docs IH]; intros r H; [done|].
  cbn [add_all]. unfold bind at 1.
  pose proof (AddDocument_index_ok doc r H) as H'.
  destruct (AddDocument CreateEmbeddings doc r) as [r' [[]|e|p]]; simpl in *; [by apply IH|done|done].
Qed.

Lemma load_sources_index_ok srcs r :
  index_ok r -> index_ok (load_sources CreateEmbeddings fetch srcs r).1.
Proof.
  revert r. induction srcs as [|s srcs IH]; intros r H; [done|].
  cbn [load_sources]. destruct (fetch (URL s)) as [content|]; [|by apply IH].
  unfold bind at 1, handle.
  pose proof (AddDocument_index_ok (mkDocument content (Name s) (SourceType s)) r H) as H'.
  destruct (AddDocument CreateEmbeddings _ r) as [r' [[]|e|p]]; simpl in *; [by apply IH|by apply IH|done].
Qed.

Lemma loadKnowledgeBase_index_ok sources r :
  index_ok r -> index_ok (loadKnowledgeBase CreateEmbeddings fetch sources r).1.
Proof.
  intros H. destruct sources as [e|[|s srcs]]; unfold loadKnowledgeBase;
    [done|by apply add_all_index_ok|by apply load_sources_index_ok].
Qed.
End Invariant.

(** Every indexed chunk has a stored embedding: this holds for the two
    constructors and is kept by every method and by the knowledge-base
    loader, whether they succeed, fail half-way or panic. *)
Theorem index_ok_invariant CreateEmbeddings CreateChatCompletion CreateMessages fetch
    (r : RAG) (doc : Document) (question : gostring) (n : Z)
    (sources : string + list DocSource) :
  index_ok r ->
  index_ok (AddDocument CreateEmbeddings doc r).1 /\
  index_ok (Query CreateEmbeddings CreateChatCompletion CreateMessages question r).1 /\
  index_ok (SetChunkSize n r).1 /\
  index_ok (SetMaxTokens n r).1 /\
  index_ok (loadKnowledgeBase CreateEmbeddings fetch sources r).1.
Proof.
  intros H. split; [by apply AddDocument_index_ok|].
  split; [|split; [done|split; [done|by apply loadKnowledgeBase_index_ok]]].
  assert (Hq : readonly (Query CreateEmbeddings CreateChatCompletion CreateMessages question))
    by (unfold Query; repeat readonly_step).
  by rewrite Hq.
Qed.

Lemma index_ok_invariant_witness :
  index_ok (NewRAG "sk-test") /\
  (index_ok (AddDocument embed_fail_on_c (article "a b c d e") (NewRAG "sk-test")).1 /\
   index_ok (Query embed_const no_chat no_messages (str "q") (NewRAG "sk-test")).1 /\
   index_ok (SetChunkSize 0 (NewRAG "sk-test")).1 /\
   index_ok (SetMaxTokens 0 (NewRAG "sk-test")).1 /\
   index_ok (loadKnowledgeBase embed_const (fun _ => None) (inr []) (NewRAG "sk-test")).1).
Proof.
  assert (H : index_ok (NewRAG "sk-test")) by constructor.
  split; [exact H|].
  exact (index_ok_invariant embed_fail_on_c no_chat no_messages (fun _ => None)
           _ (article "a b c d e") (str "q") 0 (inr []) H).
Defined.

(* ------------------------------------------------------------------ *)
(** ** Configuration of the query command *)

Lemma applyRAGConfig_run cs mt r :
  applyRAGConfig cs mt r =
  (let r1 := if 0 <? cs then set_chunkSize r cs else r in
   if 0 <? mt then set_maxTokens r1 mt else r1, Ok tt).
Proof.
  unfold applyRAGConfig, bind, SetChunkSize, SetMaxTokens, modify, ret.
  by destruct (0 <? cs), (0 <? mt).
Qed.

(** Starting from either constructor, the configuration step of the
    [query] command cannot leave a non-positive chunk size or token limit:
    a configured value is used only when it is positive, otherwise the
    defaults 1000 and 4000 stay; nothing else changes. *)
Theorem applyRAGConfig_positive (useClaude : bool) (k : client) (cs mt : Z) :
  let r0 := if useClaude then NewRAGWithClaude k else NewRAG k in
  let res := applyRAGConfig cs mt r0 in
  res.2 = Ok tt /\
  chunkSize res.1 = (if 0 <? cs then cs else 1000) /\
  maxTokens res.1 = (if 0 <? mt then mt else 4000) /\
  0 < chunkSize res.1 /\ 0 < maxTokens res.1 /\
  useOpenAI res.1 = negb useClaude /\ documents res.1 = [] /\ embeddings res.1 = ∅.
Proof.
  intros r0 res. unfold res. rewrite applyRAGConfig_run.
  destruct (Z.ltb_spec 0 cs), (Z.ltb_spec 0 mt);
    unfold r0; destruct useClaude; cbn; repeat split; lia.
Qed.

(* ------------------------------------------------------------------ *)
(** ** loadKnowledgeBase *)

Section Loading.
Variable CreateEmbeddings : client -> gostring -> outcome (list float32).
Variable fetch : gostring -> option gostring.

Definition same_flags (r r' : RAG) : Prop :=
  useOpenAI r' = useOpenAI r /\ openaiClient r' = openaiClient r.

Definition no_panic {A} (o : outcome A) : Prop := forall p, o <> Panic p.

Lemma add_chunks_safe r0 doc chunks r :
  (forall text, no_panic (getEmbedding CreateEmbeddings text r0).2) ->
  same_flags r0 r ->
  same_flags r0 (add_chunks CreateEmbeddings doc chunks r).1 /\
  no_panic (add_chunks CreateEmbeddings doc chunks r).2.
Proof.
  intros Hsafe. revert r. induction chunks as [|ch chunks IH]; intros r [Hu Ho];
    [split; [done|intros ?; discriminate]|].
  remember (add_chunks CreateEmbeddings doc (ch :: chunks) r) as res eqn:E.
  cbn [add_chunks] in E. unfold bind at 1, handle in E.
  rewrite (getEmbedding_flags CreateEmbeddings ch r0 r) in E by done.
  specialize (Hsafe ch).
  destruct (getEmbedding CreateEmbeddings ch r0).2 as [v|e|p]; simpl in E; subst res;
    [|split; [done|intros ?; discriminate]|by destruct (Hsafe p)].
  unfold bind at 1, modify. unfold bind at 1, modify.
  apply IH. done.
Qed.

Lemma AddDocument_safe r0 doc r :
  (forall text, no_panic (getEmbedding CreateEmbeddings text r0).2) ->
  same_flags r0 r ->
  same_flags r0 (AddDocument CreateEmbeddings doc r).1 /\
  no_panic (AddDocument CreateEmbeddings doc r).2.
Proof. intros H1 H2. by apply add_chunks_safe. Qed.

Lemma load_sources_ok r0 srcs r :
  (forall text, no_panic (getEmbedding CreateEmbeddings text r0).2) ->
  same_flags r0 r ->
  (load_sources CreateEmbeddings fetch srcs r).2 = Ok tt.
Proof.
  intros Hsafe. revert r. induction srcs as [|s srcs IH]; intros r Hr; [done|].
  cbn [load_sources]. destruct (fetch (URL s)) as [content|]; [|by apply IH].
  unfold bind at 1, handle.
  destruct (AddDocument_safe r0 (mkDocument content (Name s) (SourceType s)) r Hsafe Hr)
    as [Hr' Hp].
  destruct (AddDocument CreateEmbeddings _ r) as [r' [[]|e|p]]; simpl in *;
    [by apply IH|by apply IH|by destruct (Hp p)].
Qed.

Lemma load_sources_claude srcs r :
  useOpenAI r = false -> load_sources CreateEmbeddings fetch srcs r = (r, Ok tt).
Proof.
  intros H. revert r H. induction srcs as [|s srcs IH]; intros r H; [done|].
  cbn [load_sources]. destruct (fetch (URL s)) as [content|]; [|by apply IH].
  unfold bind at 1, handle. rewrite AddDocument_claude by done.
  destruct (Fields _); simpl; by apply IH.
Qed.

Lemma add_all_claude_first doc docs r :
  useOpenAI r = false -> Fields (Content doc) <> [] ->
  add_all CreateEmbeddings (doc :: docs) r =
  (r, Err (errorf "failed to get embedding: " claude_mode_error)).
Proof.
  intros Hu Hw. cbn [add_all]. unfold bind at 1. rewrite AddDocument_claude by done.
  by destruct (Fields (Content doc)).
Qed.

Lemma loadKnowledgeBase_claude_empty r :
  useOpenAI r = false ->
  loadKnowledgeBase CreateEmbeddings fetch (inr []) r =
  (r, Err (errorf "failed to get embedding: " claude_mode_error)).
Proof.
  intros H. unfold loadKnowledgeBase, loadExampleDocuments, example_documents.
  apply add_all_claude_first; [done|]. vm_compute. discriminate.
Qed.
End Loading.

(** With configured sources, [loadKnowledgeBase] succeeds whatever happens
    to them: a source that cannot be fetched or read, or whose ingestion
    fails, is skipped; only a panic of the embedding backend can stop it. *)
Theorem loadKnowledgeBase_skips_failures CreateEmbeddings fetch
    (srcs : list DocSource) (r : RAG) :
  srcs <> [] ->
  (forall text p, (getEmbedding CreateEmbeddings text r).2 <> Panic p) ->
  (loadKnowledgeBase CreateEmbeddings fetch (inr srcs) r).2 = Ok tt.
Proof.
  intros Hne Hsafe. unfold loadKnowledgeBase.
  destruct srcs as [|s srcs]; [done|]. by apply (load_sources_ok _ _ r).
Qed.

Lemma loadKnowledgeBase_skips_failures_witness :
  let srcs := [mkDocSource (str "https://down.example") (str "doc") (str "Down");
               mkDocSource (str "https://example.com/c") (str "doc") (str "C")] in
  let fetch := fun url => if decide (url = str "https://down.example") then None else Some (str "c") in
  (srcs <> [] /\
   forall text p, (getEmbedding embed_fail_on_c text (NewRAG "sk-test")).2 <> Panic p) /\
  (loadKnowledgeBase embed_fail_on_c fetch (inr srcs) (NewRAG "sk-test")).2 = Ok tt.
Proof.
  intros srcs fetch.
  assert (H1 : srcs <> []) by discriminate.
  assert (H2 : forall text p, (getEmbedding embed_fail_on_c text (NewRAG "sk-test")).2 <> Panic p)
    by (intros text p; unfold getEmbedding, bind, get, lift, embed_fail_on_c; simpl;
        by destruct (decide (text = str "c"))).
  split; [auto|]. exact (loadKnowledgeBase_skips_failures embed_fail_on_c fetch srcs _ H1 H2).
Defined.

(** With no configured source and the Claude backend, [loadKnowledgeBase]
    fails on the first example document with the unwrapped error of
    [AddDocument], and indexes nothing. *)
Theorem loadKnowledgeBase_claude_examples CreateEmbeddings fetch (r : RAG) :
  useOpenAI r = false ->
  loadKnowledgeBase CreateEmbeddings fetch (inr []) r =
  (r, Err (errorf "failed to get embedding: " claude_mode_error)).
Proof. apply loadKnowledgeBase_claude_empty. Qed.

Lemma loadKnowledgeBase_claude_examples_witness :
  useOpenAI (NewRAGWithClaude "sk-ant-test") = false /\
  loadKnowledgeBase embed_const (fun _ => None) (inr []) (NewRAGWithClaude "sk-ant-test") =
  (NewRAGWithClaude "sk-ant-test", Err (errorf "failed to get embedding: " claude_mode_error)).
Proof.
  assert (H : useOpenAI (NewRAGWithClaude "sk-ant-test") = false) by reflexivity.
  split; [exact H|]. exact (loadKnowledgeBase_claude_examples embed_const _ _ H).
Defined.

(* ------------------------------------------------------------------ *)
(** ** The query command with a Claude key *)

(** When a real Claude key is configured, the [query] command always
    fails, whatever the backends answer: without an OpenAI key it stops at
    the key check; otherwise it selects the Claude backend, and with no
    source the example documents cannot be embedded, while with sources
    every ingestion is skipped and the question cannot be embedded. *)
Theorem queryCommand_claude_fails CreateEmbeddings CreateChatCompletion CreateMessages fetch
    (openAIKey claudeKey : client) (cs mt : Z) (sources : string + list DocSource)
    (question : gostring) :
  claudeKey <> ""%string -> claudeKey <> claude_key_placeholder ->
  queryCommand CreateEmbeddings CreateChatCompletion CreateMessages fetch
    openAIKey claudeKey cs mt sources question =
  Err (if String.eqb openAIKey "" then "OpenAI API key not found in configuration"%string else
       match sources with
       | inl err => errorf "failed to load knowledge base: "
                      (errorf "failed to read document sources from config: " err)
       | inr [] => errorf "failed to load knowledge base: "
                     (errorf "failed to get embedding: " claude_mode_error)
       | inr _ => errorf "failed to process query: "
                    (errorf "failed to get question embedding: " claude_mode_error)
       end).
Proof.
  intros Hc Hp. unfold queryCommand.
  destruct (String.eqb openAIKey "") eqn:Ho; [reflexivity|].
  apply String.eqb_neq in Hc, Hp. rewrite Hc, Hp. simpl negb. cbn iota.
  unfold bind at 1. rewrite applyRAGConfig_run.
  set (r1 := let r1 := if 0 <? cs then set_chunkSize (NewRAGWithClaude claudeKey) cs
                       else NewRAGWithClaude claudeKey in
             if 0 <? mt then set_maxTokens r1 mt else r1).
  assert (Hu : useOpenAI r1 = false) by (unfold r1; by destruct (0 <? cs), (0 <? mt)).
  unfold bind at 1, handle.
  destruct sources as [err|[|s srcs]].
  - reflexivity.
  - rewrite loadKnowledgeBase_claude_empty by done. reflexivity.
  - unfold loadKnowledgeBase. rewrite load_sources_claude by done.
    rewrite Query_claude_mode by done. reflexivity.
Qed.

Lemma queryCommand_claude_fails_witness :
  ("sk-ant-test"%string <> ""%string /\ "sk-ant-test"%string <> claude_key_placeholder) /\
  queryCommand embed_const no_chat no_messages (fun _ => Some (str "k8s"))
    "" "sk-ant-test" 500 0 (inr [mkDocSource (str "https://example.com") (str "doc") (str "Ex")])
    (str "how to scale?") =
  Err (if String.eqb "" "" then "OpenAI API key not found in configuration"%string else
       errorf "failed to process query: "
         (errorf "failed to get question embedding: " claude_mode_error)) /\
  queryCommand embed_const no_chat no_messages (fun _ => Some (str "k8s"))
    "sk-test" "sk-ant-test" 500 0 (inr [mkDocSource (str "https://example.com") (str "doc") (str "Ex")])
    (str "how to scale?") =
  Err (if String.eqb "sk-test" "" then "OpenAI API key not found in configuration"%string else
       errorf "failed to process query: "
         (errorf "failed to get question embedding: " claude_mode_error)).
Proof.
  assert (H2 : "sk-ant-test"%string <> ""%string) by discriminate.
  assert (H3 : "sk-ant-test"%string <> claude_key_placeholder) by discriminate.
  split; [auto|]. split.
  - exact (queryCommand_claude_fails embed_const no_chat no_messages (fun _ => Some (str "k8s"))
             "" _ 500 0 (inr [mkDocSource (str "https://example.com") (str "doc") (str "Ex")])
             (str "how to scale?") H2 H3).
  - exact (queryCommand_claude_fails embed_const no_chat no_messages (fun _ => Some (str "k8s"))
             "sk-test" _ 500 0 (inr [mkDocSource (str "https://example.com") (str "doc") (str "Ex")])
             (str "how to scale?") H2 H3).
Defined.

(* ------------------------------------------------------------------ *)
(** ** SearchEngine.enhanceResults *)

(** [enhanceResults] succeeds exactly when the analysis of every result
    succeeds; it then returns the results in order, with title, URL and
    description unchanged and each content replaced by its analysis. *)
Theorem enhanceResults_ok (analyzeContent : gostring -> gostring -> outcome gostring)
    (results rs' : list AI.SearchResult) (query : gostring) :
  AI.enhanceResults analyzeContent results query = Ok rs' <->
  Forall2 (fun res res' =>
      AI.Title res' = AI.Title res /\ AI.URL res' = AI.URL res /\
      AI.Description res' = AI.Description res /\
      analyzeContent (AI.Content res) query = Ok (AI.Content res'))
    results rs'.
Proof.
  revert rs'. induction results as [|res results IH]; intros rs'; simpl.
  - split; [by injection 1 as <-|by inversion 1].
  - split.
    + destruct (analyzeContent (AI.Content res) query) as [a|e|p] eqn:Ha; try discriminate.
      destruct (AI.enhanceResults analyzeContent results query) as [rs|e|p] eqn:Hr; try discriminate.
      injection 1 as <-. constructor; [done|]. by apply IH.
    + inversion 1 as [|? res' ? rs'' (Ht & Hu & Hd & Ha) Hrest]; subst.
      rewrite Ha. apply IH in Hrest. rewrite Hrest.
      destruct res'; simpl in *; by subst.
Qed.

Lemma enhanceResults_ok_witness :
  let analyze := fun (c q : gostring) => Ok (q ++ str ": " ++ c) in
  let res := AI.mkSearchResult (str "EKS") (str "https://aws.amazon.com/eks") (str "managed k8s") (str "body") in
  AI.enhanceResults analyze [res] (str "q") =
    Ok [AI.mkSearchResult (str "EKS") (str "https://aws.amazon.com/eks") (str "managed k8s") (str "q: body")] <->
  Forall2 (fun r r' =>
      AI.Title r' = AI.Title r /\ AI.URL r' = AI.URL r /\
      AI.Description r' = AI.Description r /\
      analyze (AI.Content r) (str "q") = Ok (AI.Content r'))
    [res] [AI.mkSearchResult (str "EKS") (str "https://aws.amazon.com/eks") (str "managed k8s") (str "q: body")].
Proof. intros analyze res. exact (enhanceResults_ok analyze [res] _ (str "q")). Defined.
